(** * YouTube ELT pipeline: staging reconciliation and core transformation

    A shallow embedding of
      - [dags/youtube_load_db.py]: [find_latest_json], [sync_to_staging],
        [transform_to_core] and the order of the tasks of [update_db];
      - [dags/youtube_extract.py]: [iso_duration_to_readable],
        [get_channel_videos];
      - [test_duration_transform.py]: [iso_to_seconds], [get_duration_label].

    Conventions of the embedding.
      - Python exceptions are values of [exn]; a computation that may raise
        returns a [result].  Code that talks to PostgreSQL runs in the monad
        [M], which threads the [world] (the three tables and the log) and
        keeps every statement already executed when a later one raises: the
        hook runs each statement in autocommit mode.
      - Tables with a conflict target ([ON CONFLICT (video_id)]) are finite
        maps keyed by [video_id]; the statistics history is a list.  The
        DDL is not in the repository: apart from these keys, and the key of
        the statistics table taken from the specification, no constraint
        or trigger is modelled.
      - The one storage failure the code handles, the read of the existing
        staging ids, is an input of the run ([environment]); every other
        statement reaches the database.
      - What PostgreSQL and [isodate] compute (the casts to [INTERVAL] and
        [timestamp], [EXTRACT(EPOCH ...)], [parse_duration]) is a parameter
        of the definitions that use it.
      - The fields of the JSON document are strings, as [produce_JSON]
        writes them: a field of a record is a string or is absent, and a
        JSON [null] where a string is expected is not modelled (for the
        three counters, which the code reads with [dict.get], absent and
        [null] are the same).
      - A string is a sequence of characters up to U+00FF; a text with
        other characters is outside the model.  Among these characters the
        class [\d] and [int()] know the ASCII digits only, and [int()]
        strips the ASCII white space, NEL (U+0085) and the no-break space
        (U+00A0).  [int()] refuses a literal of more than 4300 digits, the
        default limit of the interpreter ([sys.int_info]). *)

From stdpp Require Import gmap strings list fin_maps fin_sets.
From Stdlib Require Import ZArith QArith Ascii String DecimalString.
From Stdlib Require DecimalZ.

Local Open Scope string_scope.
Local Open Scope list_scope.
Local Open Scope Z_scope.

(* ===================================================================== *)
(** ** Exceptions and results *)
(* ===================================================================== *)

Inductive exn :=
  | KeyError (key : string)
  | ValueError (literal : string)
  | InvalidInterval (text : string)
  | InvalidTimestamp (text : string)
  | UniqueViolation (video_id : string).

Inductive result (A : Type) :=
  | Ok (a : A)
  | Raise (e : exn).
Arguments Ok {A} a.
Arguments Raise {A} e.

Definition result_bind {A B} (r : result A) (k : A → result B) : result B :=
  match r with
  | Ok a => k a
  | Raise e => Raise e
  end.

Global Instance result_ret : MRet result := λ A a, Ok a.
Global Instance result_mbind : MBind result := λ A B k r, result_bind r k.

(* ===================================================================== *)
(** ** Python built-ins used by the pipeline *)
(* ===================================================================== *)

Module Py.

Definition is_digit (c : ascii) : bool :=
  let n := nat_of_ascii c in (48 <=? n)%nat && (n <=? 57)%nat.

Definition digit_val (c : ascii) : Z := Z.of_nat (nat_of_ascii c) - 48.

(** The white space [int()] strips: tab to carriage return, the space,
    NEL and the no-break space. *)
Definition is_space (c : ascii) : bool :=
  let n := nat_of_ascii c in
  ((9 <=? n)%nat && (n <=? 13)%nat) || (n =? 32)%nat || (n =? 133)%nat
  || (n =? 160)%nat.

Fixpoint lstrip (l : list ascii) : list ascii :=
  match l with
  | c :: l' => if is_space c then lstrip l' else l
  | [] => []
  end.

Definition strip (l : list ascii) : list ascii :=
  rev (lstrip (rev (lstrip l))).

(** Digits of an integer literal; a single underscore may separate two
    digits.  [after_digit] tells whether the previous character was a
    digit. *)
Fixpoint int_digits (acc : Z) (after_digit : bool) (l : list ascii) : option Z :=
  match l with
  | [] => if after_digit then Some acc else None
  | c :: l' =>
      if is_digit c then int_digits (10 * acc + digit_val c) true l'
      else if Ascii.eqb c "_"%char && after_digit then int_digits acc false l'
      else None
  end.

Definition int_literal (l : list ascii) : option Z :=
  match l with
  | "+"%char :: l' => int_digits 0 false l'
  | "-"%char :: l' => Z.opp <$> int_digits 0 false l'
  | _ => int_digits 0 false l
  end.

(** [sys.int_info.default_max_str_digits]: the longest literal [int()]
    converts. *)
Definition max_str_digits : nat := 4300.

Definition count_digits (l : list ascii) : nat :=
  List.length (List.filter is_digit l).

(** [int(s)] for a [str] argument: optional white space around an
    optional sign and decimal digits.  A literal that is not of this form,
    or that has more than [max_str_digits] digits, raises [ValueError]. *)
Definition int (s : string) : result Z :=
  let literal := strip (list_ascii_of_string s) in
  match int_literal literal with
  | Some z =>
      if (max_str_digits <? count_digits literal)%nat then Raise (ValueError s)
      else Ok z
  | None => Raise (ValueError s)
  end.

(** [s.startswith(p)] *)
Fixpoint startswith (p s : string) : bool :=
  match p, s with
  | EmptyString, _ => true
  | String a p', String b s' => Ascii.eqb a b && startswith p' s'
  | String _ _, EmptyString => false
  end.

(** [s[n:]] *)
Fixpoint slice_from (n : nat) (s : string) : string :=
  match n, s with
  | O, _ => s
  | S n', String _ s' => slice_from n' s'
  | S _, EmptyString => EmptyString
  end.

(** [re.search(r'(\d+)U', s)] for a unit letter [U] that is not a digit:
    group 1 of the leftmost match, if any.  The greedy [\d+] takes a
    maximal run of digits, and the leftmost match starts where such a run
    starts; [run] is the run read so far. *)
Fixpoint re_search_number (unit : ascii) (run : list ascii) (l : list ascii)
  : option (list ascii) :=
  match l with
  | [] => None
  | c :: l' =>
      if is_digit c then re_search_number unit (run ++ [c]) l'
      else if Ascii.eqb c unit && negb (bool_decide (run = [])) then Some run
      else re_search_number unit [] l'
  end.

Definition re_search (unit : ascii) (s : string) : option string :=
  string_of_list_ascii <$> re_search_number unit [] (list_ascii_of_string s).

End Py.

(* ===================================================================== *)
(** ** Duration codec ([test_duration_transform.py]) *)
(* ===================================================================== *)

(** One component of the duration: [0] when the pattern does not match,
    [int(match.group(1))] when it does. *)
Definition component (unit : ascii) (duration : string) : result Z :=
  match Py.re_search unit duration with
  | Some digits => Py.int digits
  | None => Ok 0
  end.

Definition iso_to_seconds (duration : string) : result Z :=
  if bool_decide (duration = "") || negb (Py.startswith "PT" duration) then Ok 0
  else
    let duration := Py.slice_from 2 duration in
    hours ← component "H" duration;
    minutes ← component "M" duration;
    seconds ← component "S" duration;
    Ok (hours * 3600 + minutes * 60 + seconds).

Definition get_duration_label (seconds : Z) : string :=
  if seconds <? 60 then "short" else "long".

(** The [CASE WHEN total_seconds < 60 THEN 'short' ELSE 'long' END] of
    [transform_to_core], on the numeric value of [EXTRACT(EPOCH FROM ...)]. *)
Definition sql_duration_label (total_seconds : Q) : string :=
  match (total_seconds ?= 60)%Q with
  | Lt => "short"
  | _ => "long"
  end.




(* ===================================================================== *)
(** ** Readable duration ([dags/youtube_extract.py]) *)
(* ===================================================================== *)

(** [f"{n}"] for an integer. *)
Definition format_d (n : Z) : string := NilZero.string_of_int (Z.to_int n).

(** [f"{n:02d}"]: at least two characters, zeros after the sign. *)
Definition format_02d (n : Z) : string :=
  if (String.length (format_d n) <? 2)%nat then "0" ++ format_d n else format_d n.

Section Readable.

(** [int(isodate.parse_duration(duration).total_seconds())]: the library is
    not part of the repository.  [None] stands for any exception in it,
    which the bare [except:] catches. *)
Context (total_seconds : string → option Z).

Definition iso_duration_to_readable (duration : string) : string :=
  match total_seconds duration with
  | None => "0:00"
  | Some total_seconds =>
      let minutes := total_seconds / 60 in
      let seconds := total_seconds mod 60 in
      let hours := minutes / 60 in
      let minutes := minutes mod 60 in
      if 0 <? hours
      then format_d hours ++ ":" ++ format_02d minutes ++ ":" ++ format_02d seconds
      else format_d minutes ++ ":" ++ format_02d seconds
  end.

End Readable.

(* ===================================================================== *)
(** ** Data model *)
(* ===================================================================== *)

(** One element of [data['videos']].  A field is [None] when the key is
    absent from the JSON object; for the three counters [None] also stands
    for a JSON [null] ([dict.get] returns [None] in both cases).  A JSON
    [null] in one of the five other fields, which the code would pass on
    to PostgreSQL as [NULL], has no counterpart here. *)
Record raw_video := RawVideo {
  video_id : option string;
  title : option string;
  published_at : option string;
  duration : option string;
  duration_readable : option string;
  view_count : option string;
  like_count : option string;
  comment_count : option string;
}.

(** The JSON document written by [produce_JSON]. *)
Record snapshot := Snapshot {
  channel_handle : string;
  channel_id : string;
  extraction_date : string;
  videos : list raw_video;
}.

(** A row of [staging.youtube_videos_raw]; its [video_id] is the key under
    which the table holds it. *)
Record staging_row := StagingRow {
  st_title : string;
  st_published_at : string;
  st_duration : string;
  st_duration_readable : string;
  st_view_count : Z;
  st_like_count : Z;
  st_comment_count : Z;
  st_channel_id : string;
  st_channel_handle : string;
  st_extraction_date : string;
}.

(** A row of [core.videos]. *)
Record core_row (interval : Type) := CoreRow {
  co_title : string;
  co_published_at : string;
  co_duration : string;
  co_duration_readable : string;
  co_duration_seconds : interval;
  co_duration_label : string;
  co_channel_id : string;
  co_channel_handle : string;
  co_created_at : Z;
  co_updated_at : Z;
}.
Arguments CoreRow {interval}.
Arguments co_title {interval}.
Arguments co_published_at {interval}.
Arguments co_duration {interval}.
Arguments co_duration_readable {interval}.
Arguments co_duration_seconds {interval}.
Arguments co_duration_label {interval}.
Arguments co_channel_id {interval}.
Arguments co_channel_handle {interval}.
Arguments co_created_at {interval}.
Arguments co_updated_at {interval}.

(** A row of [core.video_statistics]. *)
Record statistics_row := StatisticsRow {
  vs_video_id : string;
  vs_view_count : Z;
  vs_like_count : Z;
  vs_comment_count : Z;
  vs_recorded_at : Z;
}.

Global Instance statistics_row_eq_dec : EqDecision statistics_row.
Proof. solve_decision. Defined.

(** What the two tasks write through [logging]. *)
Inductive log_record :=
  | InfoUniqueVideos (n : nat)
  | InfoAlreadyInStaging (n : nat)
  | WarningExistingIdsUnavailable
  | InfoUpserted (inserted updated : nat)
  | InfoDeletedFromStaging (n : nat)
  | InfoTransformStarted
  | InfoCoreVideosUpdated
  | InfoDeletedFromCore (n : nat)
  | InfoNothingToDeleteFromCore
  | InfoStatisticsUpdated
  | InfoTransformDone (n : nat).

(** The database and the log. *)
Record world (interval : Type) := World {
  staging : gmap string staging_row;
  core : gmap string (core_row interval);
  statistics : list statistics_row;
  logs : list log_record;
}.
Arguments World {interval}.
Arguments staging {interval}.
Arguments core {interval}.
Arguments statistics {interval}.
Arguments logs {interval}.

(** What the run cannot decide by itself: whether the [SELECT video_id]
    of the existing staging rows returns or raises. *)
Record environment := Environment {
  existing_ids_readable : bool;
}.

(* ===================================================================== *)
(** ** The task monad *)
(* ===================================================================== *)

Section Tasks.
Context {interval : Type}.

Definition M (A : Type) : Type := world interval → result A * world interval.

Definition M_ret {A} (a : A) : M A := λ w, (Ok a, w).

Definition M_bind {A B} (m : M A) (k : A → M B) : M B := λ w,
  match m w with
  | (Ok a, w') => k a w'
  | (Raise e, w') => (Raise e, w')
  end.

Global Instance M_mret : MRet M := @M_ret.
Global Instance M_mbind : MBind M := λ A B k m, M_bind m k.

(** The result of pure Python code, inside a task. *)
Definition lift {A} (r : result A) : M A := λ w, (r, w).

Definition logging (r : log_record) : M unit := λ w,
  (Ok (), World (staging w) (core w) (statistics w) (logs w ++ [r])).

Definition get_staging : M (gmap string staging_row) := λ w, (Ok (staging w), w).

Definition set_staging (t : gmap string staging_row) : M unit := λ w,
  (Ok (), World t (core w) (statistics w) (logs w)).

(* =================================================================== *)
(** ** [sync_to_staging] *)
(* =================================================================== *)

(** [d[k] = v] on a dictionary, which keeps its keys in the order of
    their first insertion. *)
Fixpoint dict_set {V} (k : string) (v : V) (d : list (string * V)) : list (string * V) :=
  match d with
  | [] => [(k, v)]
  | (k', v') :: d' =>
      if decide (k = k') then (k, v) :: d' else (k', v') :: dict_set k v d'
  end.

(** [video[key]] *)
Definition getitem (key : string) (field : option string) : result string :=
  match field with
  | Some x => Ok x
  | None => Raise (KeyError key)
  end.

(** [{v['video_id']: v for v in videos}], from the dictionary [d]. *)
Fixpoint dict_comprehension (d : list (string * raw_video)) (videos : list raw_video)
  : result (list (string * raw_video)) :=
  match videos with
  | [] => Ok d
  | v :: videos' =>
      k ← getitem "video_id" (video_id v);
      dict_comprehension (dict_set k v d) videos'
  end.

(** [{v['video_id'] for v in videos}] *)
Fixpoint set_comprehension (videos : list raw_video) : result (gset string) :=
  match videos with
  | [] => Ok ∅
  | v :: videos' =>
      k ← getitem "video_id" (video_id v);
      ks ← set_comprehension videos';
      Ok ({[k]} ∪ ks)
  end.

(** [int(c) if c is not None else 0] *)
Definition count_parameter (c : option string) : result Z :=
  match c with
  | Some s => Py.int s
  | None => Ok 0
  end.

(** The [parameters] dictionary of one upsert, in the order Python
    evaluates its entries: the key and the row proposed for insertion. *)
Definition upsert_parameters (data : snapshot) (video : raw_video)
  : result (string * staging_row) :=
  p_video_id ← getitem "video_id" (video_id video);
  p_title ← getitem "title" (title video);
  p_published_at ← getitem "published_at" (published_at video);
  p_duration ← getitem "duration" (duration video);
  p_duration_readable ← getitem "duration_readable" (duration_readable video);
  p_view_count ← count_parameter (view_count video);
  p_like_count ← count_parameter (like_count video);
  p_comment_count ← count_parameter (comment_count video);
  Ok (p_video_id,
      {| st_title := p_title;
         st_published_at := p_published_at;
         st_duration := p_duration;
         st_duration_readable := p_duration_readable;
         st_view_count := p_view_count;
         st_like_count := p_like_count;
         st_comment_count := p_comment_count;
         st_channel_id := channel_id data;
         st_channel_handle := channel_handle data;
         st_extraction_date := extraction_date data |}).

(** [ON CONFLICT (video_id) DO UPDATE SET ...] of the staging upsert:
    the row kept when [excluded] meets the existing row [old]. *)
Definition staging_do_update (old excluded : staging_row) : staging_row :=
  {| st_title := st_title excluded;
     st_published_at := st_published_at old;
     st_duration := st_duration old;
     st_duration_readable := st_duration_readable old;
     st_view_count := st_view_count excluded;
     st_like_count := st_like_count excluded;
     st_comment_count := st_comment_count excluded;
     st_channel_id := st_channel_id old;
     st_channel_handle := st_channel_handle old;
     st_extraction_date := st_extraction_date excluded |}.

(** [upsert_query] *)
Definition staging_upsert (k : string) (excluded : staging_row)
    (t : gmap string staging_row) : gmap string staging_row :=
  match t !! k with
  | None => <[k := excluded]> t
  | Some old => <[k := staging_do_update old excluded]> t
  end.

(** The [for video in videos] loop with its two counters. *)
Fixpoint upsert_loop (data : snapshot) (existing_ids : gset string)
    (videos : list raw_video) (inserted updated : nat) : M (nat * nat) :=
  match videos with
  | [] => mret (inserted, updated)
  | video :: videos' =>
      p ← lift (upsert_parameters data video);
      t ← get_staging;
      set_staging (staging_upsert p.1 p.2 t);;
      if decide (p.1 ∈ existing_ids)
      then upsert_loop data existing_ids videos' inserted (S updated)
      else upsert_loop data existing_ids videos' (S inserted) updated
  end.

(** The [try: ... except Exception] around the read of the existing ids. *)
Definition read_existing_ids (env : environment) : M (gset string) :=
  if existing_ids_readable env then
    t ← get_staging;
    let existing_ids : gset string := dom t in
    logging (InfoAlreadyInStaging (size existing_ids));;
    mret existing_ids
  else
    logging WarningExistingIdsUnavailable;;
    mret ∅.

(** [DELETE FROM staging.youtube_videos_raw WHERE video_id = ANY(ids)] *)
Definition staging_delete (ids : gset string) (t : gmap string staging_row)
  : gmap string staging_row :=
  filter (λ kv, kv.1 ∉ ids) t.

(** The task.  Its XCom push of [extraction_date] is the argument of the
    same name of [transform_to_core]. *)
Definition sync_to_staging (env : environment) (data : snapshot) : M nat :=
  unique_videos ← lift (dict_comprehension [] (videos data));
  let videos : list raw_video := unique_videos.*2 in
  logging (InfoUniqueVideos (List.length videos));;
  existing_ids ← read_existing_ids env;
  json_video_ids ← lift (set_comprehension videos);
  counters ← upsert_loop data existing_ids videos 0 0;
  logging (InfoUpserted counters.1 counters.2);;
  let to_delete : gset string := existing_ids ∖ json_video_ids in
  (if decide (to_delete ≠ ∅) then
     t ← get_staging;
     set_staging (staging_delete to_delete t);;
     logging (InfoDeletedFromStaging (size to_delete))
   else mret ());;
  mret (List.length videos).

(* =================================================================== *)
(** ** [transform_to_core] *)
(* =================================================================== *)

(** PostgreSQL's part of the transformation.  [interval_in] is the cast
    [duration::INTERVAL] ([None] when the text is not an interval, which
    makes the statement raise) and [epoch] is [EXTRACT(EPOCH FROM ...)];
    [timestamp_in] is the cast [%(date)s::timestamp]. *)
Context (interval_in : string → option interval).
Context (epoch : interval → Q).
Context (timestamp_in : string → option Z).

(** Modelled from the spec: the DDL of [core.video_statistics] is not in
    the repository; the spec gives the table the composite key
    (video_id, recorded_at).  [statistics_keyed] tells whether the table
    declares it, in which case inserting a pair twice raises. *)
Context (statistics_keyed : bool).

Definition set_core (t : gmap string (core_row interval)) : M unit := λ w,
  (Ok (), World (staging w) t (statistics w) (logs w)).

Definition get_core : M (gmap string (core_row interval)) := λ w, (Ok (core w), w).

Definition get_statistics : M (list statistics_row) := λ w, (Ok (statistics w), w).

Definition set_statistics (l : list statistics_row) : M unit := λ w,
  (Ok (), World (staging w) (core w) l (logs w)).

(** One row of the [SELECT DISTINCT ... FROM duration_calc]: the row
    proposed for [core.videos], with [NOW()] in both time columns. *)
Definition duration_calc (now : Z) (s : staging_row) : result (core_row interval) :=
  match interval_in (st_duration s) with
  | None => Raise (InvalidInterval (st_duration s))
  | Some duration_seconds =>
      Ok {| co_title := st_title s;
            co_published_at := st_published_at s;
            co_duration := st_duration s;
            co_duration_readable := st_duration_readable s;
            co_duration_seconds := duration_seconds;
            co_duration_label := sql_duration_label (epoch duration_seconds);
            co_channel_id := st_channel_id s;
            co_channel_handle := st_channel_handle s;
            co_created_at := now;
            co_updated_at := now |}
  end.

(** The whole selection; one text that is not an interval fails it. *)
Fixpoint select_duration_calc (now : Z) (rows : list (string * staging_row))
  : result (list (string * core_row interval)) :=
  match rows with
  | [] => Ok []
  | (k, s) :: rows' =>
      c ← duration_calc now s;
      cs ← select_duration_calc now rows';
      Ok ((k, c) :: cs)
  end.

(** [ON CONFLICT (video_id) DO UPDATE SET ...] of the core upsert. *)
Definition core_do_update (now : Z) (old excluded : core_row interval)
  : core_row interval :=
  {| co_title := co_title excluded;
     co_published_at := co_published_at old;
     co_duration := co_duration old;
     co_duration_readable := co_duration_readable old;
     co_duration_seconds := co_duration_seconds excluded;
     co_duration_label := co_duration_label excluded;
     co_channel_id := co_channel_id old;
     co_channel_handle := co_channel_handle old;
     co_created_at := co_created_at old;
     co_updated_at := now |}.

Definition core_upsert (now : Z) (t : gmap string (core_row interval))
    (p : string * core_row interval) : gmap string (core_row interval) :=
  match t !! p.1 with
  | None => <[p.1 := p.2]> t
  | Some old => <[p.1 := core_do_update now old p.2]> t
  end.

(** The first statement: [INSERT INTO core.videos ... SELECT ... ON
    CONFLICT ...].  It changes nothing when the selection raises. *)
Definition upsert_core_videos (now : Z) : M unit :=
  t ← get_staging;
  rows ← lift (select_duration_calc now (map_to_list t));
  c ← get_core;
  set_core (foldl (core_upsert now) c rows).

(** [DELETE FROM core.videos WHERE video_id NOT IN (SELECT video_id FROM
    staging.youtube_videos_raw)] keeps the rows selected here. *)
Definition core_delete (st : gmap string staging_row)
    (c : gmap string (core_row interval)) : gmap string (core_row interval) :=
  filter (λ kv, kv.1 ∈ dom st) c.

(** [SELECT COUNT( * ) FROM core.videos WHERE video_id NOT IN (...)] *)
Definition count_absent_from_staging (st : gmap string staging_row)
    (c : gmap string (core_row interval)) : nat :=
  size (filter (λ kv, kv.1 ∉ dom st) c).

Definition delete_from_core : M unit :=
  st ← get_staging;
  c ← get_core;
  let to_delete_core := count_absent_from_staging st c in
  if decide (0 < to_delete_core)%nat then
    set_core (core_delete st c);;
    logging (InfoDeletedFromCore to_delete_core)
  else logging InfoNothingToDeleteFromCore.

(** One row of the [SELECT video_id, view_count, ... FROM staging]. *)
Definition statistics_sample (recorded_at : Z) (p : string * staging_row)
  : statistics_row :=
  {| vs_video_id := p.1;
     vs_view_count := st_view_count p.2;
     vs_like_count := st_like_count p.2;
     vs_comment_count := st_comment_count p.2;
     vs_recorded_at := recorded_at |}.

Definition statistics_key (r : statistics_row) : string * Z :=
  (vs_video_id r, vs_recorded_at r).

(** The first new row whose key the table already holds. *)
Definition key_conflict (old new : list statistics_row) : option statistics_row :=
  if statistics_keyed
  then List.find (λ r, bool_decide (statistics_key r ∈ statistics_key <$> old)) new
  else None.

(** The last statement: [INSERT INTO core.video_statistics ... SELECT ...
    FROM staging.youtube_videos_raw]. *)
Definition insert_statistics (extraction_date : string) : M unit :=
  match timestamp_in extraction_date with
  | None => lift (Raise (InvalidTimestamp extraction_date))
  | Some recorded_at =>
      st ← get_staging;
      old ← get_statistics;
      let new := statistics_sample recorded_at <$> map_to_list st in
      match key_conflict old new with
      | Some r => lift (Raise (UniqueViolation (vs_video_id r)))
      | None => set_statistics (old ++ new)
      end
  end.

(** [extraction_date] is the value pulled from the XCom of
    [sync_to_staging]; [now] is [NOW()] in the first statement. *)
Definition transform_to_core (extraction_date : string) (now : Z) : M nat :=
  logging InfoTransformStarted;;
  upsert_core_videos now;;
  logging InfoCoreVideosUpdated;;
  delete_from_core;;
  insert_statistics extraction_date;;
  logging InfoStatisticsUpdated;;
  c ← get_core;
  let count := size c in
  logging (InfoTransformDone count);;
  mret count.

End Tasks.

(* ===================================================================== *)
(** ** [find_latest_json] and the DAG [update_db] *)
(* ===================================================================== *)

(** A file of [DATA_PATH] that the glob [*.json] lists: its path, its
    modification time (in any unit, only the order matters) and the
    document [json.load] reads from it. *)
Record json_file := JsonFile {
  path : string;
  st_mtime : Z;
  content : snapshot;
}.

Definition DATA_PATH : string := "/usr/local/airflow/include/youtube_data".

(** How a task of the DAG ends when it does not succeed. *)
Inductive task_failure :=
  | FileNotFoundError (directory : string)
  | TaskRaised (e : exn).

Inductive attempt (A : Type) :=
  | Succeeded (a : A)
  | Failed (e : task_failure).
Arguments Succeeded {A} a.
Arguments Failed {A} e.

(** [max(l, key=...)] on a list that starts with [best]: a later item wins
    only with a strictly greater key. *)
Fixpoint max_by_mtime (best : json_file) (l : list json_file) : json_file :=
  match l with
  | [] => best
  | f :: l' =>
      if st_mtime best <? st_mtime f then max_by_mtime f l' else max_by_mtime best l'
  end.

Definition find_latest_json (json_files : list json_file) : attempt string :=
  match json_files with
  | [] => Failed (FileNotFoundError DATA_PATH)
  | f :: l => Succeeded (path (max_by_mtime f l))
  end.

(** [open(json_file)] and [json.load], in the directory the glob listed. *)
Definition load_json (json_files : list json_file) (json_file : string)
  : attempt snapshot :=
  match List.find (λ f, bool_decide (path f = json_file)) json_files with
  | Some f => Succeeded (content f)
  | None => Failed (FileNotFoundError json_file)
  end.

(** One attempt of the DAG
    [find_json >> sync_staging >> transform >> trigger_quality]: a task
    runs when the one before it succeeded, and the quality DAG is
    triggered when the attempt [Succeeded]. *)
Definition update_db {interval} (interval_in : string → option interval)
    (epoch : interval → Q) (timestamp_in : string → option Z)
    (statistics_keyed : bool) (json_files : list json_file)
    (env : environment) (now : Z) (w : world interval)
  : attempt nat * world interval :=
  match find_latest_json json_files with
  | Failed e => (Failed e, w)
  | Succeeded json_file =>
      match load_json json_files json_file with
      | Failed e => (Failed e, w)
      | Succeeded data =>
          match sync_to_staging env data w with
          | (Raise e, w1) => (Failed (TaskRaised e), w1)
          | (Ok _, w1) =>
              match transform_to_core interval_in epoch timestamp_in
                      statistics_keyed (extraction_date data) now w1 with
              | (Raise e, w2) => (Failed (TaskRaised e), w2)
              | (Ok count, w2) => (Succeeded count, w2)
              end
          end
      end
  end.

(* ===================================================================== *)
(** ** [get_channel_videos] ([dags/youtube_extract.py]) *)
(* ===================================================================== *)

(** What the YouTube API answers.  [channels().list] answers with the
    first item of [items], if any: the uploads playlist and the video count
    as text.  [playlistItems().list] answers page by page: the video ids
    of the page and, on every page but the last, the token of the next
    one.  [videos().list] answers a list of ids with the items it has.
    Every request is answered, and with a document of this shape: a
    request that fails or an answer that lacks one of these fields, on
    which the code would raise, is not modelled. *)
Record channel_item := ChannelItem {
  uploads : string;
  videoCount : string;
}.

Inductive playlist :=
  | LastPage (items : list string)
  | NextPage (items : list string) (nextPageToken : string) (rest : playlist).

Record video_item := VideoItem {
  item_id : string;
  item_title : string;
  item_publishedAt : string;
  item_duration : string;
  item_viewCount : option string;
  item_likeCount : option string;
  item_commentCount : option string;
}.

Record youtube := YouTube {
  channels_list : option channel_item;
  playlist_items : playlist;
  videos_list : list string → list video_item;
}.

(** The environment variables and the two readings of the clock. *)
Record extract_config := ExtractConfig {
  CHANNEL_ID : string;
  CHANNEL_HANDLE : string;
  now_isoformat : string;
  now_strftime : string;
}.

(** What the task leaves: the JSON document, its [total_videos] field and
    the name of the file, which is also the value returned. *)
Record extraction := Extracted {
  output : snapshot;
  total_videos : nat;
  filename : string;
}.

(** The [while len(video_ids) < total_videos_in_channel] loop: one request
    per turn, until the count is reached or a page comes without token. *)
Fixpoint collect_video_ids (total : Z) (video_ids : gset string) (pages : playlist)
  : gset string :=
  if Z.of_nat (size video_ids) <? total then
    match pages with
    | LastPage items => video_ids ∪ list_to_set items
    | NextPage items next_page_token rest =>
        let video_ids := video_ids ∪ list_to_set items in
        if bool_decide (next_page_token = "") then video_ids
        else collect_video_ids total video_ids rest
    end
  else video_ids.

(** [range(0, stop, step)] for a positive step. *)
Definition range_from_0 (stop step : nat) : list nat :=
  (λ k, k * step)%nat <$> seq 0 ((stop + step - 1) / step).

(** [l[i:j]] for [0 <= i <= j]. *)
Definition slice {A} (i j : nat) (l : list A) : list A := take (j - i) (drop i l).

(** The [batch_ids] of the loop [for i in range(0, len(video_ids), 50)]. *)
Definition batches (video_ids : list string) : list (list string) :=
  (λ i, slice i (i + 50) video_ids) <$> range_from_0 (List.length video_ids) 50.

(** [os.path.join(a, b)] for a directory [a] that does not end in a slash. *)
Definition path_join (a b : string) : string :=
  if Py.startswith "/" b then b else (a ++ "/" ++ b)%string.

Section Extract.

(** The parser behind [iso_duration_to_readable]. *)
Context (total_seconds : string → option Z).

(** The dictionary appended to [videos] for one item. *)
Definition video_record (video : video_item) : raw_video :=
  let duration := item_duration video in
  {| video_id := Some (item_id video);
     title := Some (item_title video);
     published_at := Some (item_publishedAt video);
     duration := Some duration;
     duration_readable := Some (iso_duration_to_readable total_seconds duration);
     view_count := item_viewCount video;
     like_count := item_likeCount video;
     comment_count := item_commentCount video |}.

(** The task, up to the document it writes.  [list(video_ids)] is taken
    in the order of [elements]; Python leaves the order of a set open.
    Writing the file and pushing to XCom are taken to succeed. *)
Definition get_channel_videos (config : extract_config) (api : youtube)
  : result extraction :=
  match channels_list api with
  | None => Raise (ValueError (CHANNEL_ID config))
  | Some channel_data =>
      total_videos_in_channel ← Py.int (videoCount channel_data);
      let video_ids : gset string :=
        collect_video_ids total_videos_in_channel ∅ (playlist_items api) in
      let video_ids := elements video_ids in
      let videos :=
        batch_ids ← batches video_ids;
        video_record <$> videos_list api batch_ids in
      Ok {| output := {| channel_handle := CHANNEL_HANDLE config;
                         channel_id := CHANNEL_ID config;
                         extraction_date := now_isoformat config;
                         videos := videos |};
            total_videos := List.length videos;
            filename := path_join DATA_PATH
                          (CHANNEL_HANDLE config ++ "_" ++ now_strftime config
                           ++ ".json")%string |}
  end.

End Extract.

(** Every id the playlist lists, and a playlist none of whose pages
    carries an empty token. *)
Fixpoint playlist_ids (pages : playlist) : gset string :=
  match pages with
  | LastPage items => list_to_set items
  | NextPage items _ rest => list_to_set items ∪ playlist_ids rest
  end.

Fixpoint tokens_present (pages : playlist) : Prop :=
  match pages with
  | LastPage _ => True
  | NextPage _ token rest => token ≠ "" ∧ tokens_present rest
  end.

(* ===================================================================== *)
(** ** Notions used in the statements *)
(* ===================================================================== *)

(** A run of decimal digits. *)
Definition digits (l : list ascii) : Prop := Forall (λ c, Py.is_digit c = true) l.

(** [d[k]] for a dictionary. *)
Definition dict_get {V} (k : string) (d : list (string * V)) : option V :=
  snd <$> List.find (λ p, bool_decide (p.1 = k)) d.

(** Every value is filed under its own [video_id]. *)
Definition keyed (d : list (string * raw_video)) : Prop :=
  Forall (λ p, video_id p.2 = Some p.1) d.

(** The last record of a sequence that carries the id [k]. *)
Definition last_occurrence (k : string) (vs : list raw_video) : option raw_video :=
  last (filter (λ v, video_id v = Some k) vs).

(** The records of a sequence that are the last to carry their id, in the
    order of the sequence. *)
Fixpoint keep_last (vs : list raw_video) : list raw_video :=
  match vs with
  | [] => []
  | v :: vs' =>
      if decide (video_id v ∈ video_id <$> vs') then keep_last vs'
      else v :: keep_last vs'
  end.

(** A record filed under its id. *)
Definition with_key (v : raw_video) : string * raw_video :=
  (default "" (video_id v), v).

(** The rows proposed by a sequence of upserts, applied in order. *)
Definition upsert_all (ps : list (string * staging_row))
    (t : gmap string staging_row) : gmap string staging_row :=
  foldl (λ t p, staging_upsert p.1 p.2 t) t ps.

(** The row a key holds after an upsert of [excluded]. *)
Definition upserted (old : option staging_row) (excluded : staging_row) : staging_row :=
  match old with
  | None => excluded
  | Some old => staging_do_update old excluded
  end.

(** Every record yields its upsert parameters. *)
Definition parameters_of (data : snapshot) (vs : list raw_video)
    (ps : list (string * staging_row)) : Prop :=
  Forall2 (λ v p, upsert_parameters data v = Ok p) vs ps.

(** The ids a snapshot mentions. *)
Definition snapshot_ids (data : snapshot) : gset string :=
  list_to_set (omap video_id (videos data)).

(** The two counters after the loop. *)
Definition inserted_count (existing_ids : gset string) (ps : list (string * staging_row)) : nat :=
  List.length (filter (λ p, p.1 ∉ existing_ids) ps).
Definition updated_count (existing_ids : gset string) (ps : list (string * staging_row)) : nat :=
  List.length (filter (λ p, p.1 ∈ existing_ids) ps).

(** The ids the run takes for the existing ones. *)
Definition existing_ids_of {interval} (env : environment) (w : world interval) : gset string :=
  if existing_ids_readable env then dom (staging w) else ∅.

(** The world a run leaves when every statement succeeded: [u] is the
    deduplicated snapshot and [ps] are the rows it proposes. *)
Definition reconciled {interval} (env : environment) (u : list (string * raw_video))
    (ps : list (string * staging_row)) (w : world interval)
  : world interval :=
  let existing_ids := existing_ids_of env w in
  let to_delete := existing_ids ∖ list_to_set u.*1 in
  {| staging := staging_delete to_delete (upsert_all ps (staging w));
     core := core w;
     statistics := statistics w;
     logs := logs w
       ++ [InfoUniqueVideos (List.length u);
           if existing_ids_readable env
           then InfoAlreadyInStaging (size existing_ids)
           else WarningExistingIdsUnavailable;
           InfoUpserted (inserted_count existing_ids ps) (updated_count existing_ids ps)]
       ++ (if decide (to_delete ≠ ∅)
           then [InfoDeletedFromStaging (size to_delete)] else []) |}.

(** The snapshot [data] with another sequence of records. *)
Definition with_videos (data : snapshot) (vs : list raw_video) : snapshot :=
  {| channel_handle := channel_handle data;
     channel_id := channel_id data;
     extraction_date := extraction_date data;
     videos := vs |}.

(** [n] transformations in a row, each with its extraction date and its
    [NOW()]. *)
Fixpoint transform_runs {interval} (interval_in : string → option interval)
    (epoch : interval → Q) (timestamp_in : string → option Z)
    (statistics_keyed : bool) (runs : list (string * Z)) : M unit :=
  match runs with
  | [] => mret ()
  | (extraction_date, now) :: runs' =>
      transform_to_core interval_in epoch timestamp_in statistics_keyed
        extraction_date now;;
      transform_runs interval_in epoch timestamp_in statistics_keyed runs'
  end.

(** The rows of the statistics history about the video [k]. *)
Definition samples_of (k : string) (l : list statistics_row) : list statistics_row :=
  filter (λ r, vs_video_id r = k) l.

(** The row a key holds in [core.videos] after an upsert of [excluded]. *)
Definition core_upserted {interval} (now : Z) (old : option (core_row interval))
    (excluded : core_row interval) : core_row interval :=
  match old with
  | None => excluded
  | Some old => core_do_update now old excluded
  end.




(** [re.match(r'^\d+:\d{2}(:\d{2})?$', s)] of the quality tests
    ([tests/test_data_quality_rules.py]); [$] also matches before a final
    newline. *)
Fixpoint skip_digits (l : list ascii) : list ascii :=
  match l with
  | c :: l' => if Py.is_digit c then skip_digits l' else l
  | [] => []
  end.

Definition at_end (l : list ascii) : bool :=
  match l with
  | [] => true
  | [c] => Ascii.eqb c "010"%char
  | _ => false
  end.

Definition matches_readable (s : string) : bool :=
  match list_ascii_of_string s with
  | c :: l =>
      Py.is_digit c &&
      match skip_digits l with
      | colon :: a :: b :: rest =>
          Ascii.eqb colon ":" && Py.is_digit a && Py.is_digit b &&
          (at_end rest ||
           match rest with
           | colon' :: x :: y :: rest' =>
               Ascii.eqb colon' ":" && Py.is_digit x && Py.is_digit y && at_end rest'
           | _ => false
           end)
      | _ => false
      end
  | [] => false
  end.

(** A core row seen again by a later upsert: only [updated_at] moves. *)
Definition touched {interval} (now : Z) (r : core_row interval) : core_row interval :=
  {| co_title := co_title r;
     co_published_at := co_published_at r;
     co_duration := co_duration r;
     co_duration_readable := co_duration_readable r;
     co_duration_seconds := co_duration_seconds r;
     co_duration_label := co_duration_label r;
     co_channel_id := co_channel_id r;
     co_channel_handle := co_channel_handle r;
     co_created_at := co_created_at r;
     co_updated_at := now |}.

(** A counter the upsert can store: absent, or a text [int()] converts. *)
Definition readable_count (c : option string) : Prop :=
  match c with
  | None => True
  | Some s => ∃ z, Py.int s = Ok z
  end.

(** A record with every field the upsert reads. *)
Definition complete_record (v : raw_video) : Prop :=
  is_Some (title v) ∧ is_Some (published_at v) ∧ is_Some (duration v)
  ∧ is_Some (duration_readable v)
  ∧ readable_count (view_count v) ∧ readable_count (like_count v)
  ∧ readable_count (comment_count v).

(** The statistics of an item that the upsert can store. *)
Definition readable_statistics (item : video_item) : Prop :=
  readable_count (item_viewCount item) ∧ readable_count (item_likeCount item)
  ∧ readable_count (item_commentCount item).

(** [videos().list] answers with items of the ids asked, at most one for
    each; it may leave ids out and answer in another order. *)
Definition answers_ids_asked (api : youtube) : Prop :=
  ∀ batch_ids, NoDup batch_ids →
    NoDup (item_id <$> videos_list api batch_ids)
    ∧ item_id <$> videos_list api batch_ids ⊆ batch_ids.

(* ===================================================================== *)
(** ** Concrete instances used in examples *)
(* ===================================================================== *)

Module Demo.

(** A stand-in for the interval cast: texts with the [PT] marker are read
    by [iso_to_seconds], every other text is rejected. *)
Definition interval_in (text : string) : option Z :=
  if Py.startswith "PT" text then
    match iso_to_seconds text with
    | Ok seconds => Some seconds
    | Raise _ => None
    end
  else None.

Definition epoch (seconds : Z) : Q := inject_Z seconds.

(** A stand-in for the duration parser of [isodate]. *)
Definition total_seconds (text : string) : option Z := interval_in text.

(** A stand-in for the timestamp cast: integer literals only. *)
Definition timestamp_in (text : string) : option Z :=
  match Py.int text with
  | Ok z => Some z
  | Raise _ => None
  end.

Definition video (id name length : string) : raw_video :=
  {| video_id := Some id; title := Some name;
     published_at := Some "2025-09-13T16:00:01Z";
     duration := Some length; duration_readable := Some "0:00";
     view_count := Some "10"; like_count := None; comment_count := Some "3" |}.

Definition row (name length : string) : staging_row :=
  {| st_title := name; st_published_at := "2025-09-01T00:00:00Z";
     st_duration := length; st_duration_readable := "0:00";
     st_view_count := 1; st_like_count := 2; st_comment_count := 3;
     st_channel_id := "UC0"; st_channel_handle := "MrBeast";
     st_extraction_date := "1" |}.

Definition data (vs : list raw_video) : snapshot :=
  {| channel_handle := "MrBeast"; channel_id := "UCX6";
     extraction_date := "2"; videos := vs |}.

Definition db (st : gmap string staging_row) : world Z :=
  {| staging := st; core := ∅; statistics := []; logs := [] |}.

Definition core_video (name length : string) (seconds created : Z) : core_row Z :=
  {| co_title := name; co_published_at := "2025-08-01T00:00:00Z";
     co_duration := length; co_duration_readable := "9:99";
     co_duration_seconds := seconds;
     co_duration_label := get_duration_label seconds;
     co_channel_id := "UC-old"; co_channel_handle := "MrBeast-old";
     co_created_at := created; co_updated_at := created |}.

Definition transform := transform_to_core interval_in epoch timestamp_in true.
Definition transforms := transform_runs interval_in epoch timestamp_in true.

End Demo.

Module DemoApi.

Definition item (id : string) : video_item :=
  {| item_id := id; item_title := "title of " ++ id;
     item_publishedAt := "2025-09-13T16:00:01Z"; item_duration := "PT1M5S";
     item_viewCount := Some "10"; item_likeCount := None;
     item_commentCount := Some "3" |}.

(** A channel that announces [count] videos; its playlist has two pages
    which share one id. *)
Definition api (count : string) : youtube :=
  {| channels_list := Some {| uploads := "UU0"; videoCount := count |};
     playlist_items := NextPage ["a"; "b"] "t1" (LastPage ["b"; "c"]);
     videos_list := λ batch_ids, item <$> batch_ids |}.

Definition config : extract_config :=
  {| CHANNEL_ID := "UC0"; CHANNEL_HANDLE := "MrBeast";
     now_isoformat := "2025-10-02T14:00:00"; now_strftime := "20251002_140000" |}.

End DemoApi.

(* ===================================================================== *)
(** * Properties of the duration codec *)
(* ===================================================================== *)

Example iso_to_seconds_PT22M26S : iso_to_seconds "PT22M26S" = Ok 1346.
Proof. reflexivity. Qed.
Example iso_to_seconds_PT1H15M3S : iso_to_seconds "PT1H15M3S" = Ok 4503.
Proof. reflexivity. Qed.
Example iso_to_seconds_PT2H : iso_to_seconds "PT2H" = Ok 7200.
Proof. reflexivity. Qed.
Example iso_to_seconds_INVALID : iso_to_seconds "INVALID" = Ok 0.
Proof. reflexivity. Qed.
Example iso_to_seconds_lenient : iso_to_seconds "PT5X3S" = Ok 3.
Proof. reflexivity. Qed.

Example readable_PT37M4S :
  iso_duration_to_readable Demo.total_seconds "PT37M4S" = "37:04".
Proof. reflexivity. Qed.
Example readable_PT35S : iso_duration_to_readable Demo.total_seconds "PT35S" = "0:35".
Proof. reflexivity. Qed.
Example readable_PT1H23M45S :
  iso_duration_to_readable Demo.total_seconds "PT1H23M45S" = "1:23:45".
Proof. reflexivity. Qed.
Example readable_PT2H : iso_duration_to_readable Demo.total_seconds "PT2H" = "2:00:00".
Proof. reflexivity. Qed.
Example readable_INVALID : iso_duration_to_readable Demo.total_seconds "INVALID" = "0:00".
Proof. reflexivity. Qed.

(** The readable form of a duration the library cannot parse is "0:00";
    nothing is raised to the caller. *)
Lemma iso_duration_to_readable_soft total_seconds duration :
  total_seconds duration = None →
  iso_duration_to_readable total_seconds duration = "0:00".
Proof. unfold iso_duration_to_readable. by intros ->. Qed.

Section Codec.

















End Codec.

(** C9.  [get_duration_label] answers "short" exactly below 60 seconds and
    "long" from 60 seconds on; 59 and 0 are "short", 60 is "long".  The
    [CASE] expression of [transform_to_core] gives the same label on every
    integer number of seconds. *)
Theorem get_duration_label_boundary (seconds : Z) :
  (get_duration_label seconds = "short" ↔ seconds < 60)
  ∧ (get_duration_label seconds = "long" ↔ 60 ≤ seconds)
  ∧ get_duration_label 59 = "short"
  ∧ get_duration_label 60 = "long"
  ∧ get_duration_label 0 = "short"
  ∧ sql_duration_label (inject_Z seconds) = get_duration_label seconds.
Proof.
  unfold get_duration_label, sql_duration_label.
  replace (inject_Z seconds ?= 60)%Q with (seconds ?= 60)
    by (unfold Qcompare; simpl; f_equal; lia).
  split_and!; try reflexivity.
  - destruct (Z.ltb_spec seconds 60); split; (done || lia).
  - destruct (Z.ltb_spec seconds 60); split; (done || lia).
  - unfold Z.ltb. by destruct (seconds ?= 60).
Qed.



(* ===================================================================== *)
(** * Properties of the deduplication *)
(* ===================================================================== *)

Section Dedup.

Lemma dict_set_keys {V} k (v : V) d :
  (dict_set k v d).*1 = if decide (k ∈ d.*1) then d.*1 else d.*1 ++ [k].
Proof.
  induction d as [|[k' v'] d IH]; csimpl; [done|].
  destruct (decide (k = k')) as [->|Hne].
  - rewrite decide_True by (by left). done.
  - csimpl. rewrite IH. destruct (decide (k ∈ d.*1)) as [Hin|Hnin].
    + rewrite decide_True by (by right). done.
    + rewrite decide_False; [done|]. rewrite elem_of_cons. naive_solver.
Qed.

Lemma dict_set_fresh {V} k (v : V) d : k ∉ d.*1 → dict_set k v d = d ++ [(k, v)].
Proof.
  induction d as [|[k' v'] d IH]; csimpl; [done|].
  rewrite not_elem_of_cons. intros [Hne Hnin].
  rewrite decide_False by done. by rewrite IH.
Qed.

Lemma dict_set_NoDup {V} k (v : V) d : NoDup d.*1 → NoDup (dict_set k v d).*1.
Proof.
  intros Hd. rewrite dict_set_keys. case_decide; [done|].
  apply NoDup_app. split_and!; [done | | apply NoDup_singleton].
  intros x Hx ->%list_elem_of_singleton. done.
Qed.

Lemma dict_set_keyed k v d :
  video_id v = Some k → keyed d → keyed (dict_set k v d).
Proof.
  intros Hv. unfold keyed. induction d as [|[k' v'] d IH]; csimpl; intros Hd.
  - by constructor.
  - inversion Hd; subst. case_decide; constructor; auto.
Qed.

Lemma dict_get_set {V} k k' (v : V) d :
  dict_get k (dict_set k' v d) = if decide (k = k') then Some v else dict_get k d.
Proof.
  unfold dict_get. induction d as [|[k0 v0] d IH]; csimpl.
  - destruct (decide (k = k')) as [->|Hne].
    + by rewrite bool_decide_eq_true_2.
    + by rewrite bool_decide_eq_false_2.
  - destruct (decide (k' = k0)) as [->|Hne0]; csimpl.
    + destruct (decide (k = k0)) as [->|Hne].
      * by rewrite bool_decide_eq_true_2.
      * rewrite !bool_decide_eq_false_2 by done. done.
    + destruct (decide (k0 = k)) as [->|Hne].
      * rewrite bool_decide_eq_true_2 by done. by rewrite decide_False.
      * rewrite bool_decide_eq_false_2 by done. apply IH.
Qed.

Lemma dict_get_elem_of {V} k (v : V) d :
  NoDup d.*1 → (k, v) ∈ d ↔ dict_get k d = Some v.
Proof.
  unfold dict_get. induction d as [|[k0 v0] d IH]; csimpl; intros Hd.
  - split; [by intros ?%elem_of_nil | done].
  - apply NoDup_cons in Hd as [Hk0 Hd]. rewrite elem_of_cons.
    destruct (decide (k0 = k)) as [->|Hne].
    + rewrite bool_decide_eq_true_2 by done. csimpl. split.
      * intros [[= ->]|Hin]; [done|]. destruct Hk0.
        apply list_elem_of_fmap. by exists (k, v).
      * intros [= ->]. by left.
    + rewrite bool_decide_eq_false_2 by done. rewrite <- (IH Hd). naive_solver.
Qed.

Lemma dict_comprehension_inv vs : ∀ d u,
  dict_comprehension d vs = Ok u →
  (NoDup d.*1 → NoDup u.*1)
  ∧ (keyed d → keyed u)
  ∧ (∀ k, dict_get k u = match last_occurrence k vs with
                        | Some v => Some v
                        | None => dict_get k d
                        end)
  ∧ (list_to_set u.*1 =@{gset string} list_to_set d.*1 ∪ list_to_set (omap video_id vs)).
Proof.
  induction vs as [|v vs IH]; csimpl; intros d u.
  - intros [= <-]. split_and!; [done..|set_solver].
  - destruct (video_id v) as [k|] eqn:Hk; csimpl; [|done].
    intros Hu. destruct (IH _ _ Hu) as (Hnd & Hkeyed & Hget & Hset).
    split_and!.
    + intros Hd. by apply Hnd, dict_set_NoDup.
    + intros Hd. by apply Hkeyed, dict_set_keyed.
    + intros k'. rewrite Hget, dict_get_set. unfold last_occurrence.
      rewrite filter_cons. destruct (decide (video_id v = Some k')) as [Heq|Hne].
      * assert (k' = k) as -> by congruence. rewrite decide_True by done.
        destruct (filter _ vs) as [|x xs] eqn:Hf; [done|].
        change (last (v :: x :: xs)) with (last (x :: xs)).
        destruct (last (x :: xs)) eqn:Hlast; [done|].
        by apply last_None in Hlast.
      * rewrite decide_False by congruence. done.
    + rewrite Hset, dict_set_keys. case_decide; set_solver.
Qed.

Lemma dict_comprehension_app d : ∀ acc,
  NoDup (acc ++ d).*1 → keyed d →
  dict_comprehension acc d.*2 = Ok (acc ++ d).
Proof.
  induction d as [|[k v] d IH]; csimpl; intros acc Hnd Hkeyed.
  - by rewrite app_nil_r.
  - inversion Hkeyed as [|? ? Hv Hd]; subst. csimpl in Hv. rewrite Hv. csimpl.
    assert (k ∉ acc.*1) as Hfresh.
    { rewrite fmap_app in Hnd. apply NoDup_app in Hnd as (_ & Hdisj & _).
      intros Hin. apply (Hdisj k Hin). by left. }
    rewrite dict_set_fresh by done.
    rewrite (IH (acc ++ [(k, v)])); [by rewrite <- app_assoc | | done].
    by rewrite <- app_assoc.
Qed.

(** A record without [video_id] stops the comprehension. *)
Lemma dict_comprehension_KeyError vs : ∀ d,
  Exists (λ v, video_id v = None) vs →
  dict_comprehension d vs = Raise (KeyError "video_id").
Proof.
  induction vs as [|v vs IH]; intros d Hex; [by inversion Hex|].
  csimpl. destruct (video_id v) as [k|] eqn:Hk; [|done]. csimpl.
  apply IH. inversion Hex; [congruence | done].
Qed.

Lemma dict_comprehension_Ok vs : ∀ d,
  Forall (λ v, is_Some (video_id v)) vs → ∃ u, dict_comprehension d vs = Ok u.
Proof.
  induction vs as [|v vs IH]; intros d Hall; csimpl; [eauto|].
  inversion Hall as [|? ? [k Hk] Hvs]; subst. rewrite Hk. csimpl. by apply IH.
Qed.

Lemma set_comprehension_keyed d :
  keyed d → set_comprehension d.*2 = Ok (list_to_set d.*1).
Proof.
  unfold keyed. induction d as [|[k v] d IH]; csimpl; intros Hd; [done|].
  inversion Hd as [|? ? Hv Hd']; subst. csimpl in Hv. rewrite Hv. csimpl.
  by rewrite IH.
Qed.

Lemma last_occurrence_cons k v vs :
  last_occurrence k (v :: vs)
  = match last_occurrence k vs with
    | Some v' => Some v'
    | None => if decide (video_id v = Some k) then Some v else None
    end.
Proof.
  unfold last_occurrence. rewrite filter_cons.
  destruct (decide (video_id v = Some k)); [|by destruct (last _)].
  destruct (filter _ vs) as [|x xs] eqn:Hf; [done|].
  change (last (v :: x :: xs)) with (last (x :: xs)).
  destruct (last (x :: xs)) eqn:Hlast; [done|]. by apply last_None in Hlast.
Qed.

Lemma last_occurrence_None k vs :
  last_occurrence k vs = None ↔ Some k ∉ video_id <$> vs.
Proof.
  induction vs as [|v vs IH]; csimpl.
  - split; [intros _ ?%elem_of_nil; done | done].
  - rewrite last_occurrence_cons, not_elem_of_cons.
    destruct (last_occurrence k vs) as [v'|].
    + split; [done|]. intros [_ Hnin]. by apply IH in Hnin.
    + destruct (decide (video_id v = Some k)) as [Hv|Hv].
      * split; [done|]. intros [Hne _]. by destruct Hne.
      * split; [|done]. intros _. split; [congruence | by apply IH].
Qed.

Lemma keep_last_spec vs k v :
  v ∈ keep_last vs ∧ video_id v = Some k ↔ last_occurrence k vs = Some v.
Proof.
  revert k v. induction vs as [|v0 vs IH]; intros k v; csimpl.
  - split; [by intros [?%elem_of_nil _] | done].
  - rewrite last_occurrence_cons.
    destruct (decide (video_id v0 ∈ video_id <$> vs)) as [Hin|Hnin].
    + rewrite IH. destruct (last_occurrence k vs) as [v'|] eqn:Hlast; [done|].
      split; [done|]. case_decide as Hv; [|done]. intros _.
      apply last_occurrence_None in Hlast. rewrite <- Hv in Hlast. done.
    + rewrite elem_of_cons. split.
      * intros [[->|Hv] Hk].
        -- assert (last_occurrence k vs = None) as ->.
           { apply last_occurrence_None. by rewrite <- Hk. }
           by rewrite decide_True.
        -- assert (last_occurrence k vs = Some v) as -> by (by apply IH). done.
      * destruct (last_occurrence k vs) as [v'|] eqn:Hlast.
        -- intros [= ->]. apply IH in Hlast as [? ?]. split; [by right | done].
        -- case_decide as Hv; [|done]. intros [= ->]. split; [by left | done].
Qed.

Lemma keep_last_elem_of vs v : v ∈ keep_last vs → v ∈ vs.
Proof.
  induction vs as [|v0 vs IH]; csimpl; [done|].
  case_decide; [right; by apply IH|].
  intros [->|?]%elem_of_cons; [by left | right; by apply IH].
Qed.

Lemma keep_last_NoDup vs : NoDup (video_id <$> keep_last vs).
Proof.
  induction vs as [|v vs IH]; csimpl; [constructor|].
  case_decide as Hin; [done|]. csimpl. constructor; [|done].
  intros (v' & Hv' & Hin')%list_elem_of_fmap. apply Hin.
  rewrite Hv'. apply list_elem_of_fmap. exists v'. split; [done|].
  by apply keep_last_elem_of.
Qed.

(** The last occurrences, in the order of the sequence, are the values of
    the comprehension up to their order. *)
Lemma keep_last_permutation vs u :
  dict_comprehension [] vs = Ok u → with_key <$> keep_last vs ≡ₚ u.
Proof.
  intros Hu. destruct (dict_comprehension_inv _ _ _ Hu) as (Hnd & Hkeyed & Hget & _).
  specialize (Hnd ltac:(constructor)). specialize (Hkeyed ltac:(constructor)).
  apply NoDup_Permutation.
  - apply (NoDup_fmap_1 snd). rewrite <- list_fmap_compose.
    change (snd ∘ with_key) with (id : raw_video → raw_video). rewrite list_fmap_id.
    apply (NoDup_fmap_1 video_id). apply keep_last_NoDup.
  - by apply (NoDup_fmap_1 fst).
  - intros [k v]. rewrite (dict_get_elem_of k v u Hnd), Hget.
    replace (match last_occurrence k vs with
             | Some v0 => Some v0
             | None => dict_get k []
             end)
      with (last_occurrence k vs) by (by destruct (last_occurrence k vs)).
    rewrite <- keep_last_spec, list_elem_of_fmap. unfold with_key. split.
    + intros (v' & [= -> ->] & Hin). split; [done|].
      destruct (video_id v') as [k|] eqn:Hk; [done|].
      assert (Some v' = None) as [=].
      { assert (∀ k', last_occurrence k' vs ≠ Some v') as Hno.
        { intros k' [_ Hk']%keep_last_spec. congruence. }
        exfalso. clear -Hu Hin Hk.
        assert (v' ∈ vs) as Hvs by (by apply keep_last_elem_of).
        assert (Exists (λ v, video_id v = None) vs) as Hex
          by (apply Exists_exists; eauto).
        by rewrite (dict_comprehension_KeyError vs [] Hex) in Hu. }
    + intros [Hin Hk]. exists v. rewrite Hk. done.
Qed.

End Dedup.

(* ===================================================================== *)
(** * Properties of [sync_to_staging] *)
(* ===================================================================== *)

Ltac run_task :=
  unfold mbind, mret, M_mbind, M_mret, M_bind, M_ret, lift, logging,
    get_staging, set_staging;
  cbn [staging core statistics logs fst snd].

Section Staging.
Context {interval : Type}.
Implicit Types (w : world interval) (t : gmap string staging_row).

Lemma staging_upsert_insert k e t :
  staging_upsert k e t = <[k := upserted (t !! k) e]> t.
Proof. unfold staging_upsert, upserted. by destruct (t !! k). Qed.

Lemma upsert_all_dom ps : ∀ t,
  dom (upsert_all ps t) = list_to_set ps.*1 ∪ dom t.
Proof.
  induction ps as [|[k e] ps IH]; intros t; csimpl; [set_solver|].
  unfold upsert_all in *. csimpl. rewrite IH, staging_upsert_insert, dom_insert_L.
  set_solver.
Qed.

Lemma upsert_all_lookup_notin ps : ∀ t k,
  k ∉ ps.*1 → upsert_all ps t !! k = t !! k.
Proof.
  induction ps as [|[k' e] ps IH]; intros t k; csimpl; [done|].
  rewrite not_elem_of_cons. intros [Hne Hnin].
  unfold upsert_all in *. csimpl. rewrite IH by done.
  rewrite staging_upsert_insert. by rewrite lookup_insert_ne.
Qed.

Lemma upsert_all_lookup_in ps : ∀ t k e,
  NoDup ps.*1 → (k, e) ∈ ps → upsert_all ps t !! k = Some (upserted (t !! k) e).
Proof.
  induction ps as [|[k' e'] ps IH]; intros t k e; csimpl.
  - by intros _ ?%elem_of_nil.
  - intros [Hk' Hnd]%NoDup_cons. rewrite elem_of_cons. intros [[= -> ->]|Hin].
    + change (upsert_all ((k', e') :: ps) t)
        with (upsert_all ps (staging_upsert k' e' t)).
      rewrite upsert_all_lookup_notin by done.
      rewrite staging_upsert_insert. by rewrite lookup_insert_eq.
    + change (upsert_all ((k', e') :: ps) t)
        with (upsert_all ps (staging_upsert k' e' t)).
      rewrite (IH _ _ _ Hnd Hin). rewrite staging_upsert_insert.
      rewrite lookup_insert_ne; [done|].
      intros ->. apply Hk'. apply list_elem_of_fmap. by exists (k, e).
Qed.

Lemma upsert_parameters_key data v p :
  upsert_parameters data v = Ok p → video_id v = Some p.1.
Proof.
  unfold upsert_parameters. destruct (video_id v) as [k|]; [|done]. csimpl.
  repeat match goal with
  | |- context [getitem ?key ?f] => destruct f; csimpl; [|done]
  | |- context [count_parameter ?c] => destruct (count_parameter c); csimpl; [|done]
  end.
  by intros [= <-].
Qed.

Lemma parameters_of_keys data d ps :
  keyed d → parameters_of data d.*2 ps → ps.*1 = d.*1.
Proof.
  unfold keyed, parameters_of. revert ps.
  induction d as [|[k v] d IH]; intros ps Hk Hps; csimpl in *.
  - by inversion Hps.
  - inversion Hps as [|? p ? ps' Hp Hps']; subst. inversion Hk as [|? ? Hv Hd]; subst.
    apply upsert_parameters_key in Hp. simpl in Hv. csimpl.
    f_equal; [congruence | by apply IH].
Qed.

(** The loop either performs every upsert, or raises; in both cases it
    touches the staging table only, and removes no key from it. *)
Lemma upsert_loop_run data existing_ids vs : ∀ inserted updated w,
  (∃ ps, parameters_of data vs ps
         ∧ upsert_loop data existing_ids vs inserted updated w
           = (Ok ((inserted + inserted_count existing_ids ps)%nat,
                  (updated + updated_count existing_ids ps)%nat),
              World (upsert_all ps (staging w)) (core w) (statistics w) (logs w)))
  ∨ (∃ e t, upsert_loop data existing_ids vs inserted updated w
            = (Raise e, World t (core w) (statistics w) (logs w))
            ∧ dom (staging w) ⊆ dom t
            ∧ ¬ ∃ ps, parameters_of data vs ps).
Proof.
  unfold parameters_of, inserted_count, updated_count.
  induction vs as [|v vs IH]; intros inserted updated w.
  - left. exists []. split; [constructor|]. destruct w. simpl.
    by rewrite !Nat.add_0_r.
  - simpl. run_task. destruct (upsert_parameters data v) as [[k e]|err] eqn:Hp.
    + run_task.
      set (w1 := World (staging_upsert k e (staging w)) (core w) (statistics w) (logs w)).
      destruct (decide (k ∈ existing_ids)) as [Hin|Hnin].
      * destruct (IH inserted (S updated) w1) as [(ps & Hps & ->)|(err & t & -> & Hsub & Hno)].
        -- left. exists ((k, e) :: ps). split; [by constructor|].
           rewrite !filter_cons. simpl.
           rewrite decide_False by (intros Hc; by apply Hc).
           rewrite decide_True by done. simpl. do 3 f_equal; lia.
        -- right. exists err, t. split_and!; [done | |].
           ++ etrans; [|exact Hsub]. simpl.
              rewrite staging_upsert_insert, dom_insert_L. set_solver.
           ++ intros [ps Hps]. inversion Hps; subst. apply Hno. eauto.
      * destruct (IH (S inserted) updated w1) as [(ps & Hps & ->)|(err & t & -> & Hsub & Hno)].
        -- left. exists ((k, e) :: ps). split; [by constructor|].
           rewrite !filter_cons. simpl.
           rewrite decide_True by done.
           rewrite decide_False by done. simpl. do 3 f_equal; lia.
        -- right. exists err, t. split_and!; [done | |].
           ++ etrans; [|exact Hsub]. simpl.
              rewrite staging_upsert_insert, dom_insert_L. set_solver.
           ++ intros [ps Hps]. inversion Hps; subst. apply Hno. eauto.
    + right. exists err, (staging w). split_and!; [by destruct w | done |].
      intros [ps Hps]. inversion Hps; subst. congruence.
Qed.

Lemma parameters_of_unique data vs ps ps' :
  parameters_of data vs ps → parameters_of data vs ps' → ps = ps'.
Proof.
  unfold parameters_of. intros H. revert ps'.
  induction H as [|v p vs ps Hp _ IH]; intros ps' H'; inversion H'; subst; [done|].
  f_equal; [congruence | by apply IH].
Qed.

Lemma staging_delete_empty t : staging_delete ∅ t = t.
Proof. unfold staging_delete. apply map_filter_id. set_solver. Qed.

Lemma staging_delete_dom ids t : dom (staging_delete ids t) = dom t ∖ ids.
Proof.
  unfold staging_delete. apply set_eq. intros k.
  rewrite elem_of_difference, !elem_of_dom. unfold is_Some.
  setoid_rewrite map_lookup_filter_Some. naive_solver.
Qed.

(** A run of [sync_to_staging] either performs the whole reconciliation
    or raises; a run that raises has deleted nothing and has left the
    core tables alone. *)
Lemma sync_to_staging_cases env data w :
  (∃ u ps, dict_comprehension [] (videos data) = Ok u
           ∧ parameters_of data u.*2 ps
           ∧ sync_to_staging env data w = (Ok (List.length u), reconciled env u ps w))
  ∨ (∃ e w', sync_to_staging env data w = (Raise e, w')
             ∧ dom (staging w) ⊆ dom (staging w')
             ∧ core w' = core w ∧ statistics w' = statistics w
             ∧ ¬ ∃ u ps, dict_comprehension [] (videos data) = Ok u
                         ∧ parameters_of data u.*2 ps).
Proof.
  unfold sync_to_staging.
  destruct (dict_comprehension [] (videos data)) as [u|err] eqn:Hu.
  2:{ right. exists err, w. run_task. split_and!; [done..|].
      by intros (? & ? & [=] & _). }
  destruct (dict_comprehension_inv _ _ _ Hu) as (_ & Hkeyed & _).
  specialize (Hkeyed ltac:(constructor)).
  unfold read_existing_ids, reconciled, existing_ids_of.
  destruct (existing_ids_readable env); run_task;
    rewrite (set_comprehension_keyed u Hkeyed); run_task;
    match goal with
    | |- context [upsert_loop data ?ex u.*2 0%nat 0%nat ?w1] =>
        destruct (upsert_loop_run data ex u.*2 0 0 w1)
          as [(ps & Hps & ->)|(err & t & -> & Hsub & Hno)]
    end.
  1,3: left; exists u, ps; split_and!; [done..|]; run_task;
    rewrite length_fmap; simpl;
    match goal with
    | |- context [decide (?d ≠ ∅)] => destruct (decide (d ≠ ∅)) as [Hne|He]
    end; run_task;
    [ by rewrite <- ?app_assoc
    | apply dec_stable in He; rewrite He, staging_delete_empty, ?app_nil_r;
      by rewrite <- ?app_assoc ].
  all: right; eexists err, _; split_and!; [done | done | done | done |];
    intros (u' & ps & [= <-] & Hps); apply Hno; eauto.
Qed.

Lemma sync_to_staging_run env data w u ps :
  dict_comprehension [] (videos data) = Ok u →
  parameters_of data u.*2 ps →
  sync_to_staging env data w = (Ok (List.length u), reconciled env u ps w).
Proof.
  intros Hu Hps.
  destruct (sync_to_staging_cases env data w)
    as [(u' & ps' & Hu' & Hps' & ->)|(e & w' & _ & _ & _ & _ & Hno)].
  - assert (u' = u) as -> by congruence.
    by rewrite (parameters_of_unique _ _ _ _ Hps' Hps).
  - destruct Hno. eauto.
Qed.

Lemma sync_to_staging_Ok_inv env data w n w' :
  sync_to_staging env data w = (Ok n, w') →
  ∃ u ps, dict_comprehension [] (videos data) = Ok u
          ∧ parameters_of data u.*2 ps
          ∧ n = List.length u ∧ w' = reconciled env u ps w.
Proof.
  intros Hrun.
  destruct (sync_to_staging_cases env data w)
    as [(u & ps & Hu & Hps & Heq)|(e & w'' & Heq & _)];
    rewrite Heq in Hrun; [|done].
  injection Hrun as <- <-. exists u, ps. done.
Qed.

Lemma dedup_keyed data u :
  dict_comprehension [] (videos data) = Ok u →
  NoDup u.*1 ∧ keyed u ∧ list_to_set u.*1 = snapshot_ids data.
Proof.
  intros Hu. destruct (dict_comprehension_inv _ _ _ Hu) as (Hnd & Hkeyed & _ & Hset).
  split_and!; [apply Hnd; constructor | apply Hkeyed; constructor |].
  rewrite Hset. unfold snapshot_ids. set_solver.
Qed.

Lemma reconciled_dom env data u ps w :
  dict_comprehension [] (videos data) = Ok u →
  parameters_of data u.*2 ps →
  dom (staging (reconciled env u ps w))
  = if existing_ids_readable env then snapshot_ids data
    else dom (staging w) ∪ snapshot_ids data.
Proof.
  intros Hu Hps. destruct (dedup_keyed data u Hu) as (_ & Hkeyed & Hset).
  unfold reconciled, existing_ids_of. cbn [staging].
  rewrite staging_delete_dom, upsert_all_dom, (parameters_of_keys data u ps Hkeyed Hps), Hset.
  apply set_eq. intros k.
  destruct (existing_ids_readable env), (decide (k ∈ snapshot_ids data)); set_solver.
Qed.

Lemma counts_without_existing_ids ps :
  inserted_count ∅ ps = List.length ps ∧ updated_count ∅ ps = 0%nat.
Proof.
  unfold inserted_count, updated_count.
  induction ps as [|p ps [IHi IHu]]; [done|]. rewrite !filter_cons.
  rewrite decide_True by set_solver. rewrite decide_False by set_solver.
  simpl. by rewrite IHi, IHu.
Qed.

Lemma parameters_of_length data vs ps :
  parameters_of data vs ps → List.length ps = List.length vs.
Proof. intros H. symmetry. by eapply Forall2_length. Qed.

(** The rows proposed for a deduplicated snapshot, one by one. *)
Lemma parameters_of_elem_of data u ps k e :
  keyed u → parameters_of data u.*2 ps →
  (k, e) ∈ ps ↔ ∃ v, (k, v) ∈ u ∧ upsert_parameters data v = Ok (k, e).
Proof.
  unfold keyed, parameters_of. revert ps.
  induction u as [|[k0 v0] u IH]; intros ps Hk Hps; csimpl in *.
  - inversion Hps; subst. split; [by intros ?%elem_of_nil|].
    by intros (? & ?%elem_of_nil & _).
  - inversion Hps as [|? p ? ps' Hp Hps']; subst.
    inversion Hk as [|? ? Hv Hu]; subst. simpl in Hv.
    pose proof (upsert_parameters_key _ _ _ Hp) as Hkey.
    rewrite elem_of_cons, (IH ps' Hu Hps'). split.
    + intros [Heq|(v & Hin & Hv')].
      * subst p. exists v0. simpl in *. assert (k = k0) as -> by congruence.
        split; [by left | done].
      * exists v. split; [by right | done].
    + intros (v & [[= -> ->]|Hin]%elem_of_cons & Hv'); [left; congruence|].
      right. eauto.
Qed.

Lemma parameters_of_exists data vs :
  Forall (λ v, ∃ p, upsert_parameters data v = Ok p) vs ↔ ∃ ps, parameters_of data vs ps.
Proof.
  unfold parameters_of. split.
  - induction 1 as [|v vs [p Hp] _ [ps IH]]; [by exists []|].
    exists (p :: ps). by constructor.
  - intros [ps Hps]. induction Hps; constructor; eauto.
Qed.

(** The order in which a deduplicated snapshot lists its records does not
    matter to a run that completes. *)
Lemma reconciled_permutation env data u u' ps ps' w :
  NoDup u.*1 → keyed u → u' ≡ₚ u →
  parameters_of data u.*2 ps → parameters_of data u'.*2 ps' →
  staging (reconciled env u' ps' w) = staging (reconciled env u ps w).
Proof.
  intros Hnd Hkeyed Hperm Hps Hps'.
  assert (keyed u') as Hkeyed' by (unfold keyed; by rewrite Hperm).
  assert (NoDup u'.*1) as Hnd' by (by rewrite Hperm).
  unfold reconciled. cbn [staging].
  assert (list_to_set u'.*1 =@{gset string} list_to_set u.*1) as ->.
  { apply set_eq. intros k. rewrite !elem_of_list_to_set. by rewrite Hperm. }
  f_equal. apply map_eq. intros k.
  pose proof (parameters_of_keys data u ps Hkeyed Hps) as Hkeys.
  pose proof (parameters_of_keys data u' ps' Hkeyed' Hps') as Hkeys'.
  destruct (decide (k ∈ u.*1)) as [Hin|Hnin].
  - assert (∃ e, (k, e) ∈ ps) as [e He].
    { rewrite <- Hkeys in Hin. apply list_elem_of_fmap in Hin as ([k' e] & -> & Hin).
      by exists e. }
    assert ((k, e) ∈ ps') as He'.
    { apply (parameters_of_elem_of data u' ps' k e Hkeyed' Hps').
      apply (parameters_of_elem_of data u ps k e Hkeyed Hps) in He as (v & Hv & Hp).
      exists v. split; [by rewrite Hperm | done]. }
    rewrite (upsert_all_lookup_in ps _ k e), (upsert_all_lookup_in ps' _ k e);
      [done | by rewrite Hkeys' | done | by rewrite Hkeys | done].
  - rewrite !upsert_all_lookup_notin; [done | by rewrite Hkeys | ].
    rewrite Hkeys'. by rewrite Hperm.
Qed.

End Staging.

(** C1 (amended).  When the existing ids could be read and the run
    completes, the staging table holds exactly the ids of the snapshot. *)
Theorem sync_to_staging_key_set {interval} env data (w w' : world interval) n :
  existing_ids_readable env = true →
  sync_to_staging env data w = (Ok n, w') →
  dom (staging w') = snapshot_ids data.
Proof.
  intros Hread (u & ps & Hu & Hps & -> & ->)%sync_to_staging_Ok_inv.
  rewrite (reconciled_dom env data u ps w Hu Hps). by rewrite Hread.
Qed.

Lemma sync_to_staging_key_set_witness :
  let env := Environment true in
  let data := Demo.data [Demo.video "Y" "a" "PT58S"; Demo.video "Z" "b" "PT1M";
                         Demo.video "Y" "c" "PT58S"] in
  let w := Demo.db {[ "X" := Demo.row "old" "PT2H" ]} in
  existing_ids_readable env = true
  ∧ (sync_to_staging env data w).1 = Ok 2%nat
  ∧ dom (staging (sync_to_staging env data w).2) = snapshot_ids data.
Proof.
  intros env data w. split_and!; [reflexivity | by vm_compute |].
  apply (sync_to_staging_key_set env data w _ 2); [reflexivity | by vm_compute].
Defined.

(** C1 fails as stated: a run whose read of the existing ids failed
    completes and leaves the stale id [X] in staging. *)
Lemma sync_to_staging_keeps_stale_id_when_read_fails :
  let env := Environment false in
  let data := Demo.data [Demo.video "Y" "a" "PT58S"] in
  let w := Demo.db {[ "X" := Demo.row "old" "PT2H" ]} in
  (sync_to_staging env data w).1 = Ok 1%nat
  ∧ snapshot_ids data = {[ "Y" ]}
  ∧ dom (staging (sync_to_staging env data w).2) = {[ "X"; "Y" ]}
  ∧ dom (staging (sync_to_staging env data w).2) ≠ snapshot_ids data.
Proof.
  intros env data w.
  assert (dom (staging (sync_to_staging env data w).2) =@{gset string} {[ "X"; "Y" ]}) as Hdom
    by (by vm_compute).
  assert (snapshot_ids data = {[ "Y" ]}) as Hids by (by vm_compute).
  split_and!; [by vm_compute | done | done |].
  rewrite Hdom, Hids. intros Heq.
  assert ("X" ∈@{gset string} {[ "Y" ]}) as Hin by (rewrite <- Heq; set_solver).
  by apply elem_of_singleton in Hin.
Qed.

(** C4 (amended).  A record without [video_id] makes the run raise
    [KeyError] before anything is written or logged.  An empty sequence of
    records is no error: the run completes with count 0, and the staging
    table is then empty (existing ids read) or untouched (read failed). *)
Theorem sync_to_staging_missing_key {interval} env data (w : world interval) :
  (Exists (λ v, video_id v = None) (videos data) →
   sync_to_staging env data w = (Raise (KeyError "video_id"), w))
  ∧ (videos data = [] →
     (sync_to_staging env data w).1 = Ok 0%nat
     ∧ staging (sync_to_staging env data w).2
       = if existing_ids_readable env then ∅ else staging w).
Proof.
  split.
  - intros Hex. unfold sync_to_staging.
    by rewrite (dict_comprehension_KeyError _ [] Hex).
  - intros Hnil.
    rewrite (sync_to_staging_run env data w [] []); [|by rewrite Hnil|constructor].
    split; [done|]. unfold reconciled, existing_ids_of. cbn [fst snd staging upsert_all foldl].
    destruct (existing_ids_readable env).
    + apply map_eq. intros k. rewrite lookup_empty.
      apply map_lookup_filter_None. right. intros x Hx. simpl.
      intros Hk. apply Hk. rewrite elem_of_difference. split; [|set_solver].
      apply elem_of_dom. eauto.
    + replace (∅ ∖ list_to_set ([] : list (string * raw_video)).*1) with (∅ : gset string)
        by set_solver.
      apply staging_delete_empty.
Qed.

Lemma sync_to_staging_missing_key_witness :
  let data := Demo.data [Demo.video "Y" "a" "PT58S";
                         RawVideo None (Some "b") None None None None None None] in
  let w := Demo.db {[ "X" := Demo.row "old" "PT2H" ]} in
  Exists (λ v, video_id v = None) (videos data)
  ∧ sync_to_staging (Environment true) data w = (Raise (KeyError "video_id"), w)
  ∧ (sync_to_staging (Environment false) (Demo.data []) w).1 = Ok 0%nat.
Proof.
  intros data w.
  assert (Exists (λ v, video_id v = None) (videos data)) as Hex
    by (right; left; reflexivity).
  split_and!; [exact Hex | |].
  - exact (proj1 (sync_to_staging_missing_key (Environment true) data w) Hex).
  - exact (proj1 (proj2 (sync_to_staging_missing_key (Environment false) (Demo.data []) w)
                    eq_refl)).
Defined.

(** C4 fails as stated: with an empty sequence of records the run does not
    raise; it completes and deletes the row staging held. *)
Lemma sync_to_staging_accepts_empty_snapshot :
  let w := Demo.db {[ "X" := Demo.row "old" "PT2H" ]} in
  sync_to_staging (Environment true) (Demo.data []) w
  = (Ok 0%nat,
     {| staging := ∅; core := ∅; statistics := [];
        logs := [InfoUniqueVideos 0; InfoAlreadyInStaging 1; InfoUpserted 0 0;
                 InfoDeletedFromStaging 1] |})
  ∧ staging w !! "X" = Some (Demo.row "old" "PT2H").
Proof. split; by vm_compute. Qed.

Lemma upsert_loop_with_videos {interval} data vs existing_ids l :
  ∀ inserted updated (w : world interval),
    upsert_loop (with_videos data vs) existing_ids l inserted updated w
    = upsert_loop data existing_ids l inserted updated w.
Proof.
  induction l as [|v l IH]; intros inserted updated w; [done|].
  simpl. run_task.
  change (upsert_parameters (with_videos data vs) v) with (upsert_parameters data v).
  destruct (upsert_parameters data v) as [[k e]|]; [|done].
  cbn [fst snd]. case_decide; apply IH.
Qed.

(** The order in which the deduplicated records are listed does not matter
    to a run that completes. *)
Lemma sync_to_staging_permuted {interval} env data (w : world interval) u u' n w1 :
  dict_comprehension [] (videos data) = Ok u →
  u' ≡ₚ u →
  sync_to_staging env data w = (Ok n, w1) →
  ∃ w2, sync_to_staging env (with_videos data u'.*2) w = (Ok n, w2)
        ∧ staging w2 = staging w1.
Proof.
  intros Hu Hperm (u0 & ps & Hu0 & Hps & -> & ->)%sync_to_staging_Ok_inv.
  assert (u0 = u) as -> by congruence.
  destruct (dedup_keyed data u Hu) as (Hnd & Hkeyed & _).
  assert (keyed u') as Hkeyed' by (unfold keyed; by rewrite Hperm).
  assert (NoDup u'.*1) as Hnd' by (by rewrite Hperm).
  assert (∃ ps', parameters_of (with_videos data u'.*2) u'.*2 ps') as [ps' Hps'].
  { apply parameters_of_exists. rewrite Hperm.
    apply (parameters_of_exists data). eauto. }
  exists (reconciled env u' ps' w). split.
  - rewrite (sync_to_staging_run env _ w u' ps'); [| |done].
    + by rewrite (Permutation_length Hperm).
    + by apply (dict_comprehension_app u' []).
  - by apply (reconciled_permutation env data).
Qed.

(** C7.  When the read of the existing ids fails the run goes on with an
    empty set of existing ids: whatever happens next, no key leaves the
    staging table; and if every record yields its parameters, the run
    completes, counts every record as inserted, logs the warning, and
    deletes nothing. *)
Theorem sync_to_staging_degraded {interval} env data (w : world interval) :
  existing_ids_readable env = false →
  dom (staging w) ⊆ dom (staging (sync_to_staging env data w).2)
  ∧ (∀ u ps,
       dict_comprehension [] (videos data) = Ok u →
       parameters_of data u.*2 ps →
       sync_to_staging env data w
       = (Ok (List.length u),
          {| staging := upsert_all ps (staging w);
             core := core w;
             statistics := statistics w;
             logs := logs w ++ [InfoUniqueVideos (List.length u);
                                WarningExistingIdsUnavailable;
                                InfoUpserted (List.length u) 0] |})).
Proof.
  intros Hread.
  assert (∀ u ps, dict_comprehension [] (videos data) = Ok u →
            parameters_of data u.*2 ps →
            reconciled env u ps w
            = World (upsert_all ps (staging w)) (core w) (statistics w)
                (logs w ++ [InfoUniqueVideos (List.length u);
                            WarningExistingIdsUnavailable;
                            InfoUpserted (List.length u) 0])) as Hrec.
  { intros u ps Hu Hps. unfold reconciled, existing_ids_of. rewrite Hread.
    destruct (counts_without_existing_ids ps) as [-> ->].
    rewrite (parameters_of_length _ _ _ Hps), length_fmap.
    replace (∅ ∖ list_to_set u.*1) with (∅ : gset string) by set_solver.
    rewrite staging_delete_empty, decide_False by (intros Hc; by apply Hc).
    by rewrite app_nil_r. }
  split.
  - destruct (sync_to_staging_cases env data w)
      as [(u & ps & Hu & Hps & ->)|(e & w' & -> & Hsub & _)]; [|done].
    rewrite (Hrec u ps Hu Hps). cbn [snd staging].
    rewrite upsert_all_dom. set_solver.
  - intros u ps Hu Hps.
    by rewrite (sync_to_staging_run env data w u ps Hu Hps), (Hrec u ps Hu Hps).
Qed.

Lemma sync_to_staging_degraded_witness :
  let env := Environment false in
  let data := Demo.data [Demo.video "Y" "a" "PT58S"] in
  let old := Demo.row "old" "PT2H" in
  let w := Demo.db {[ "X" := old ]} in
  existing_ids_readable env = false
  ∧ sync_to_staging env data w
    = (Ok 1%nat,
       {| staging := {[ "X" := old;
                        "Y" := StagingRow "a" "2025-09-13T16:00:01Z" "PT58S" "0:00"
                                 10 0 3 "UCX6" "MrBeast" "2" ]};
          core := ∅; statistics := [];
          logs := [InfoUniqueVideos 1; WarningExistingIdsUnavailable;
                   InfoUpserted 1 0] |}).
Proof.
  intros env data old w. split; [reflexivity|].
  rewrite (proj2 (sync_to_staging_degraded env data w eq_refl)
             [("Y", Demo.video "Y" "a" "PT58S")]
             [("Y", StagingRow "a" "2025-09-13T16:00:01Z" "PT58S" "0:00"
                      10 0 3 "UCX6" "MrBeast" "2")]
             eq_refl); [by vm_compute|].
  constructor; [reflexivity | constructor].
Defined.

(** The rows of staging after a run that completes: an id of the snapshot
    holds the upsert of its last record on the row it had before, and every
    other id is gone (existing ids read) or untouched (read failed). *)
Lemma sync_to_staging_rows {interval} env data (w w' : world interval) n k :
  sync_to_staging env data w = (Ok n, w') →
  match last_occurrence k (videos data) with
  | Some v =>
      ∃ e, upsert_parameters data v = Ok (k, e)
           ∧ staging w' !! k = Some (upserted (staging w !! k) e)
  | None =>
      staging w' !! k = if existing_ids_readable env then None else staging w !! k
  end.
Proof.
  intros (u & ps & Hu & Hps & -> & ->)%sync_to_staging_Ok_inv.
  destruct (dedup_keyed data u Hu) as (Hnd & Hkeyed & Hids).
  destruct (dict_comprehension_inv _ _ _ Hu) as (_ & _ & Hget & _).
  pose proof (parameters_of_keys data u ps Hkeyed Hps) as Hkeys.
  unfold reconciled, existing_ids_of, staging_delete. cbn [staging].
  specialize (Hget k). destruct (last_occurrence k (videos data)) as [v|] eqn:Hlast.
  - apply (dict_get_elem_of k v u Hnd) in Hget.
    assert (k ∈ ps.*1) as ([k' e] & -> & He)%list_elem_of_fmap.
    { rewrite Hkeys. apply list_elem_of_fmap. by exists (k, v). }
    simpl in *.
    pose proof He as (v' & Hv' & Hp)%(parameters_of_elem_of data u ps k' e Hkeyed Hps).
    assert (v' = v) as ->.
    { apply (dict_get_elem_of k' _ u Hnd) in Hv', Hget. congruence. }
    exists e. split; [done|].
    apply map_lookup_filter_Some. split.
    + apply upsert_all_lookup_in; [by rewrite Hkeys | done].
    + simpl. rewrite not_elem_of_difference. right.
      apply elem_of_list_to_set, list_elem_of_fmap. by exists (k', v).
  - assert (k ∉ u.*1) as Hnin.
    { intros ([k' v] & -> & Hin)%list_elem_of_fmap.
      apply (dict_get_elem_of k' v u Hnd) in Hin. simpl in Hget.
      rewrite Hin in Hget. done. }
    destruct (existing_ids_readable env).
    + apply map_lookup_filter_None.
      destruct (staging w !! k) as [old|] eqn:Hold.
      * right. intros x _ Hk. simpl in Hk. apply Hk.
        rewrite elem_of_difference, elem_of_list_to_set. split; [|done].
        apply elem_of_dom. eauto.
      * left. rewrite upsert_all_lookup_notin; [done | by rewrite Hkeys].
    + replace (∅ ∖ list_to_set u.*1) with (∅ : gset string) by set_solver.
      rewrite (map_filter_id _ (upsert_all ps (staging w))) by set_solver.
      rewrite upsert_all_lookup_notin; [done | by rewrite Hkeys].
Qed.

(** C8.  When the upsert meets an existing row, the title, the three
    counters and the extraction date of that row become those of the
    incoming record; its duration, readable duration, publication date and
    channel fields stay as they were, and so does every other row. *)
Theorem staging_upsert_on_conflict data video k excluded
    (t : gmap string staging_row) old :
  upsert_parameters data video = Ok (k, excluded) →
  t !! k = Some old →
  ∃ new,
    staging_upsert k excluded t !! k = Some new
    ∧ title video = Some (st_title new)
    ∧ count_parameter (view_count video) = Ok (st_view_count new)
    ∧ count_parameter (like_count video) = Ok (st_like_count new)
    ∧ count_parameter (comment_count video) = Ok (st_comment_count new)
    ∧ st_extraction_date new = extraction_date data
    ∧ st_duration new = st_duration old
    ∧ st_duration_readable new = st_duration_readable old
    ∧ st_published_at new = st_published_at old
    ∧ st_channel_id new = st_channel_id old
    ∧ st_channel_handle new = st_channel_handle old
    ∧ (∀ k', k' ≠ k → staging_upsert k excluded t !! k' = t !! k').
Proof.
  intros Hp Hold. exists (staging_do_update old excluded).
  unfold staging_upsert. rewrite Hold, lookup_insert_eq.
  unfold upsert_parameters in Hp.
  destruct (video_id video), (title video), (published_at video),
    (duration video), (duration_readable video); try done. csimpl in Hp.
  destruct (count_parameter (view_count video)); [|done]. csimpl in Hp.
  destruct (count_parameter (like_count video)); [|done]. csimpl in Hp.
  destruct (count_parameter (comment_count video)); [|done]. csimpl in Hp.
  injection Hp as <- <-. simpl. split_and!; try done.
  intros k' Hne. by rewrite lookup_insert_ne.
Qed.

Lemma staging_upsert_on_conflict_witness :
  let data := Demo.data [] in
  let video := Demo.video "X" "new title" "PT58S" in
  let old := Demo.row "old title" "PT2H" in
  let excluded := StagingRow "new title" "2025-09-13T16:00:01Z" "PT58S" "0:00"
                    10 0 3 "UCX6" "MrBeast" "2" in
  upsert_parameters data video = Ok ("X", excluded)
  ∧ ({[ "X" := old ]} : gmap string staging_row) !! "X" = Some old
  ∧ ∃ new, staging_upsert "X" excluded {[ "X" := old ]} !! "X" = Some new
           ∧ title video = Some (st_title new)
           ∧ st_duration new = st_duration old.
Proof.
  intros data video old excluded.
  assert (({[ "X" := old ]} : gmap string staging_row) !! "X" = Some old) as Hold
    by apply lookup_singleton_eq.
  split_and!; [reflexivity | exact Hold |].
  destruct (staging_upsert_on_conflict data video "X" excluded {[ "X" := old ]} old
              eq_refl Hold) as (new & Hnew & Htitle & _ & _ & _ & _ & Hduration & _).
  exists new. done.
Defined.

(* ===================================================================== *)
(** * Properties of [transform_to_core] *)
(* ===================================================================== *)

Ltac run_transform :=
  unfold mbind, mret, M_mbind, M_mret, M_bind, M_ret, lift, logging,
    get_staging, set_staging, get_core, set_core, get_statistics, set_statistics;
  cbn [staging core statistics logs fst snd].

Section Core.
Context {interval : Type}.
Context (interval_in : string → option interval).
Context (epoch : interval → Q).
Context (timestamp_in : string → option Z).
Context (statistics_keyed : bool).
Implicit Types (w : world interval) (c : gmap string (core_row interval)).

Abbreviation calc := (duration_calc interval_in epoch).
Abbreviation select := (select_duration_calc interval_in epoch).
Abbreviation transform :=
  (transform_to_core interval_in epoch timestamp_in statistics_keyed).

Lemma core_upsert_insert now c p :
  core_upsert now c p = <[p.1 := core_upserted now (c !! p.1) p.2]> c.
Proof. unfold core_upsert, core_upserted. by destruct (c !! p.1). Qed.

Lemma core_upserts_lookup_notin now cs : ∀ c k,
  k ∉ cs.*1 → foldl (core_upsert now) c cs !! k = c !! k.
Proof.
  induction cs as [|[k' e] cs IH]; intros c k; csimpl; [done|].
  rewrite not_elem_of_cons. intros [Hne Hnin].
  rewrite IH by done. rewrite core_upsert_insert. by rewrite lookup_insert_ne.
Qed.

Lemma core_upserts_lookup_in now cs : ∀ c k e,
  NoDup cs.*1 → (k, e) ∈ cs →
  foldl (core_upsert now) c cs !! k = Some (core_upserted now (c !! k) e).
Proof.
  induction cs as [|[k' e'] cs IH]; intros c k e; csimpl.
  - by intros _ ?%elem_of_nil.
  - intros [Hk' Hnd]%NoDup_cons. rewrite elem_of_cons. intros [[= -> ->]|Hin].
    + rewrite core_upserts_lookup_notin by done.
      rewrite core_upsert_insert. by rewrite lookup_insert_eq.
    + rewrite (IH _ _ _ Hnd Hin). rewrite core_upsert_insert.
      rewrite lookup_insert_ne; [done|]. simpl.
      intros ->. apply Hk'. apply list_elem_of_fmap. by exists (k, e).
Qed.

Lemma select_duration_calc_Ok now rows : ∀ cs,
  select now rows = Ok cs →
  cs.*1 = rows.*1
  ∧ ∀ k e, (k, e) ∈ cs → ∃ s, (k, s) ∈ rows ∧ calc now s = Ok e.
Proof.
  induction rows as [|[k s] rows IH]; intros cs; csimpl.
  - intros [= <-]. split; [done|]. by intros ? ? ?%elem_of_nil.
  - destruct (calc now s) as [e|] eqn:He; csimpl; [|done].
    destruct (select now rows) as [cs'|] eqn:Hcs; csimpl; [|done].
    intros [= <-]. destruct (IH cs' eq_refl) as [Hkeys Helem]. split.
    + csimpl. by rewrite Hkeys.
    + intros k' e' [[= -> ->]|Hin]%elem_of_cons.
      * exists s. split; [by left | done].
      * destruct (Helem k' e' Hin) as (s' & Hs' & He'). exists s'.
        split; [by right | done].
Qed.

(** The selection succeeds exactly when every duration is an interval. *)
Lemma select_duration_calc_total now rows :
  Forall (λ p, is_Some (interval_in (st_duration p.2))) rows ↔
  ∃ cs, select now rows = Ok cs.
Proof.
  induction rows as [|[k s] rows IH]; csimpl.
  - split; [eauto | constructor].
  - rewrite Forall_cons, IH. unfold duration_calc at 1. simpl. split.
    + intros [[d ->] [cs ->]]. csimpl. eauto.
    + destruct (interval_in (st_duration s)) as [d|]; csimpl; [|by intros [? [=]]].
      destruct (select now rows) as [cs|]; csimpl; [|by intros [? [=]]].
      eauto.
Qed.

(** The first statement, when it succeeds: every staging row is upserted
    and no other core row changes. *)
Lemma upsert_core_videos_Ok now w w' :
  upsert_core_videos interval_in epoch now w = (Ok (), w') →
  staging w' = staging w ∧ statistics w' = statistics w ∧ logs w' = logs w
  ∧ (∀ k, staging w !! k = None → core w' !! k = core w !! k)
  ∧ (∀ k s, staging w !! k = Some s →
       ∃ e, calc now s = Ok e
            ∧ core w' !! k = Some (core_upserted now (core w !! k) e)).
Proof.
  unfold upsert_core_videos. run_transform.
  destruct (select now (map_to_list (staging w))) as [cs|] eqn:Hcs; [|done].
  intros [= <-]. cbn [staging core statistics logs]. split_and!; [done..| |].
  - destruct (select_duration_calc_Ok _ _ _ Hcs) as [Hkeys _].
    intros k Hk. apply core_upserts_lookup_notin. rewrite Hkeys.
    intros ([k' s] & -> & Hin%elem_of_map_to_list)%list_elem_of_fmap.
    simpl in Hk. congruence.
  - destruct (select_duration_calc_Ok _ _ _ Hcs) as [Hkeys Helem].
    intros k s Hs.
    assert (k ∈ cs.*1) as ([k' e] & -> & Hin)%list_elem_of_fmap.
    { rewrite Hkeys. apply list_elem_of_fmap. exists (k, s).
      split; [done|]. by apply elem_of_map_to_list. }
    destruct (Helem _ _ Hin) as (s' & Hs'%elem_of_map_to_list & He).
    simpl in *. assert (s' = s) as -> by congruence.
    exists e. split; [done|]. apply core_upserts_lookup_in; [|done].
    rewrite Hkeys. apply NoDup_fst_map_to_list.
Qed.

Lemma core_delete_lookup st c k :
  core_delete st c !! k = if decide (k ∈ dom st) then c !! k else None.
Proof.
  unfold core_delete. destruct (decide (k ∈ dom st)) as [Hin|Hnin].
  - destruct (c !! k) as [x|] eqn:Hx.
    + by apply map_lookup_filter_Some.
    + apply map_lookup_filter_None. left. done.
  - apply map_lookup_filter_None. right. intros x _. done.
Qed.

Lemma core_delete_nothing st c :
  count_absent_from_staging st c = 0%nat → core_delete st c = c.
Proof.
  unfold count_absent_from_staging. intros Hzero%map_size_empty_inv.
  apply map_eq. intros k. rewrite core_delete_lookup.
  case_decide as Hk; [done|]. destruct (c !! k) as [x|] eqn:Hx; [|done].
  assert (filter (λ kv : string * core_row interval, kv.1 ∉ dom st) c !! k = Some x) as Hf
    by (by apply map_lookup_filter_Some).
  by rewrite Hzero in Hf.
Qed.

(** The deletion leaves [core_delete], whether or not the guard fires. *)
Lemma delete_from_core_run w :
  ∃ l, delete_from_core w
       = (Ok (), World (staging w) (core_delete (staging w) (core w))
                   (statistics w) (logs w ++ [l])).
Proof.
  unfold delete_from_core. run_transform.
  destruct (decide (0 < count_absent_from_staging (staging w) (core w))%nat) as [Hpos|Hzero];
    run_transform.
  - eauto.
  - rewrite core_delete_nothing by lia. eauto.
Qed.

Lemma insert_statistics_Ok date w w' :
  insert_statistics timestamp_in statistics_keyed date w = (Ok (), w') →
  ∃ recorded_at,
    timestamp_in date = Some recorded_at
    ∧ key_conflict statistics_keyed (statistics w)
        (statistics_sample recorded_at <$> map_to_list (staging w)) = None
    ∧ w' = World (staging w) (core w)
             (statistics w ++ (statistics_sample recorded_at <$> map_to_list (staging w)))
             (logs w).
Proof.
  unfold insert_statistics. destruct (timestamp_in date) as [ts|]; [|done].
  run_transform.
  destruct (key_conflict statistics_keyed _ _) eqn:Hconflict; [done|].
  run_transform. intros [= <-]. eauto.
Qed.

(** What a transformation that completes has done. *)
Lemma transform_to_core_Ok_inv date now w n w' :
  transform date now w = (Ok n, w') →
  ∃ w1 recorded_at,
    upsert_core_videos interval_in epoch now
      (World (staging w) (core w) (statistics w) (logs w ++ [InfoTransformStarted]))
    = (Ok (), w1)
    ∧ timestamp_in date = Some recorded_at
    ∧ staging w' = staging w
    ∧ core w' = core_delete (staging w) (core w1)
    ∧ statistics w'
      = statistics w ++ (statistics_sample recorded_at <$> map_to_list (staging w))
    ∧ n = size (core w').
Proof.
  unfold transform_to_core. run_transform.
  destruct (upsert_core_videos _ _ _ _) as [[[]|e] w1] eqn:Hupsert; [|done].
  destruct (upsert_core_videos_Ok _ _ _ Hupsert) as (Hst & Hstat & Hlogs & _).
  cbn [staging statistics logs] in Hst, Hstat, Hlogs.
  match goal with
  | |- context [delete_from_core ?w2] => destruct (delete_from_core_run w2) as [l ->]
  end.
  cbn [staging core statistics logs].
  destruct (insert_statistics _ _ _ _) as [[[]|e] w3] eqn:Hinsert; [|done].
  apply insert_statistics_Ok in Hinsert as (ts & Hts & _ & ->).
  cbn [staging core statistics logs]. intros [= <- <-].
  exists w1, ts. cbn [staging core statistics logs].
  rewrite Hst, Hstat. done.
Qed.

Lemma samples_of_fresh recorded_at k (l : list (string * staging_row)) :
  k ∉ l.*1 → samples_of k (statistics_sample recorded_at <$> l) = [].
Proof.
  unfold samples_of. induction l as [|[k' s] l IH]; csimpl; [done|].
  rewrite not_elem_of_cons. intros [Hne Hnin].
  rewrite filter_cons. simpl. rewrite decide_False by done. by apply IH.
Qed.

Lemma samples_of_one recorded_at k (l : list (string * staging_row)) :
  NoDup l.*1 → k ∈ l.*1 →
  List.length (samples_of k (statistics_sample recorded_at <$> l)) = 1%nat.
Proof.
  unfold samples_of. induction l as [|[k' s] l IH]; csimpl.
  - by intros _ ?%elem_of_nil.
  - intros [Hk' Hnd]%NoDup_cons Hin. rewrite filter_cons. simpl.
    destruct (decide (k' = k)) as [->|Hne].
    + simpl. f_equal.
      pose proof (samples_of_fresh recorded_at k l Hk') as Hnone.
      unfold samples_of in Hnone. by rewrite Hnone.
    + apply IH; [done|]. apply elem_of_cons in Hin as [?|?]; [congruence|done].
Qed.

(** C3.  A transformation that completes leaves staging as it was and
    keeps in [core.videos] only ids that staging holds: an id absent from
    staging is absent from core. *)
Theorem transform_to_core_tracks_staging date now w n w' :
  transform date now w = (Ok n, w') →
  staging w' = staging w
  ∧ dom (core w') ⊆ dom (staging w')
  ∧ (∀ k, k ∉ dom (staging w') → core w' !! k = None).
Proof.
  intros (w1 & ts & _ & _ & Hst & Hcore & _)%transform_to_core_Ok_inv.
  assert (∀ k, k ∉ dom (staging w') → core w' !! k = None) as Habsent.
  { intros k Hk. rewrite Hcore, core_delete_lookup, <- Hst. by rewrite decide_False. }
  split_and!; [done | | done].
  intros k [x Hx]%elem_of_dom. destruct (decide (k ∈ dom (staging w'))) as [|Hk]; [done|].
  rewrite (Habsent k Hk) in Hx. done.
Qed.

(** A transformation completes when every duration in staging is an
    interval, the extraction date is a timestamp and the statistics table
    accepts the new rows. *)
Lemma transform_to_core_completes date now w recorded_at :
  Forall (λ p, is_Some (interval_in (st_duration p.2))) (map_to_list (staging w)) →
  timestamp_in date = Some recorded_at →
  key_conflict statistics_keyed (statistics w)
    (statistics_sample recorded_at <$> map_to_list (staging w)) = None →
  ∃ n w', transform date now w = (Ok n, w').
Proof.
  intros [cs Hcs]%(select_duration_calc_total now) Hts Hkey.
  unfold transform_to_core, upsert_core_videos. run_transform. rewrite Hcs.
  match goal with
  | |- context [delete_from_core ?w2] => destruct (delete_from_core_run w2) as [l ->]
  end.
  unfold insert_statistics. rewrite Hts. run_transform. rewrite Hkey. run_transform.
  eauto.
Qed.

(** A duration that is not an interval makes the first statement raise:
    the run stops there and has changed no table. *)
Lemma transform_to_core_invalid_interval date now w :
  ¬ Forall (λ p, is_Some (interval_in (st_duration p.2))) (map_to_list (staging w)) →
  ∃ e w', transform date now w = (Raise e, w')
          ∧ staging w' = staging w ∧ core w' = core w
          ∧ statistics w' = statistics w.
Proof.
  intros Hbad. unfold transform_to_core, upsert_core_videos. run_transform.
  destruct (select now (map_to_list (staging w))) as [cs|e] eqn:Hcs.
  - destruct Hbad. apply (select_duration_calc_total now). eauto.
  - eauto 10.
Qed.

(** After a transformation that completes, core holds exactly the ids
    of staging. *)
Lemma transform_to_core_keys date now w n w' :
  transform date now w = (Ok n, w') → dom (core w') = dom (staging w).
Proof.
  intros (w1 & ts & Hupsert & _ & _ & Hcore & _)%transform_to_core_Ok_inv.
  destruct (upsert_core_videos_Ok _ _ _ Hupsert) as (_ & _ & _ & _ & Hin).
  cbn [staging core] in Hin.
  apply set_eq. intros k. rewrite (elem_of_dom (core w')), Hcore, core_delete_lookup.
  case_decide as Hk.
  - split; [done|]. intros [s Hs]%elem_of_dom.
    destruct (Hin k s Hs) as (e & _ & ->). eauto.
  - split; [by intros [? ?] | done].
Qed.

(** C5.  The core upsert gives every staging row a core row whose title,
    interval, label and [updated_at] are fresh.  When the id was already
    in core the other columns, [created_at] among them, keep the values
    of the existing row; [created_at] is [NOW()] only for an id that was
    not in core. *)
Theorem upsert_core_videos_on_conflict now w w' k s :
  upsert_core_videos interval_in epoch now w = (Ok (), w') →
  staging w !! k = Some s →
  ∃ new,
    core w' !! k = Some new
    ∧ co_title new = st_title s
    ∧ interval_in (st_duration s) = Some (co_duration_seconds new)
    ∧ co_duration_label new = sql_duration_label (epoch (co_duration_seconds new))
    ∧ co_updated_at new = now
    ∧ match core w !! k with
      | Some old =>
          co_created_at new = co_created_at old
          ∧ co_published_at new = co_published_at old
          ∧ co_duration new = co_duration old
          ∧ co_duration_readable new = co_duration_readable old
          ∧ co_channel_id new = co_channel_id old
          ∧ co_channel_handle new = co_channel_handle old
      | None =>
          co_created_at new = now
          ∧ co_published_at new = st_published_at s
          ∧ co_duration new = st_duration s
          ∧ co_duration_readable new = st_duration_readable s
          ∧ co_channel_id new = st_channel_id s
          ∧ co_channel_handle new = st_channel_handle s
      end.
Proof.
  intros Hrun Hs.
  destruct (upsert_core_videos_Ok _ _ _ Hrun) as (_ & _ & _ & _ & Hin).
  destruct (Hin k s Hs) as (e & He & ->).
  unfold duration_calc in He.
  destruct (interval_in (st_duration s)) as [d|]; [|done].
  injection He as <-. eexists. split; [done|].
  destruct (core w !! k); simpl; done.
Qed.

(** [created_at] survives any number of transformations during which the
    id stays in staging. *)
Lemma transform_runs_created_at runs : ∀ w w' k old,
  transform_runs interval_in epoch timestamp_in statistics_keyed runs w = (Ok (), w') →
  k ∈ dom (staging w) → core w !! k = Some old →
  ∃ new, core w' !! k = Some new ∧ co_created_at new = co_created_at old.
Proof.
  induction runs as [|[date now] runs IH]; intros w w' k old; simpl.
  - intros [= <-] _ ->. eauto.
  - run_transform.
    destruct (transform date now w) as [[n|e] w1] eqn:Hrun; [|done].
    intros Hruns Hk Hold.
    pose proof Hrun as (w0 & ts & Hupsert & _ & Hst & Hcore & _)%transform_to_core_Ok_inv.
    pose proof Hk as [s Hs]%elem_of_dom.
    destruct (upsert_core_videos_Ok _ _ _ Hupsert) as (_ & _ & _ & _ & Hin).
    destruct (Hin k s Hs) as (e & _ & Hnew). cbn [core] in Hnew. rewrite Hold in Hnew.
    destruct (IH w1 w' k (core_do_update now old e) Hruns) as (new' & Hnew' & Hcreated').
    + by rewrite Hst.
    + rewrite Hcore, core_delete_lookup, decide_True by done. done.
    + exists new'. split; [done|]. by rewrite Hcreated'.
Qed.

(** C2.  Transformations that complete only append to the statistics
    history: each run adds one row per staging row, stamped with the
    timestamp of that run, after the rows already there; after [n] runs
    the history holds [n] more rows for every id of staging. *)
Theorem transform_runs_append_statistics runs : ∀ w w',
  transform_runs interval_in epoch timestamp_in statistics_keyed runs w = (Ok (), w') →
  staging w' = staging w
  ∧ ∃ stamps,
      Forall2 (λ run recorded_at, timestamp_in run.1 = Some recorded_at) runs stamps
      ∧ statistics w'
        = statistics w
          ++ List.concat ((λ recorded_at,
                        statistics_sample recorded_at <$> map_to_list (staging w))
                     <$> stamps)
      ∧ ∀ k, k ∈ dom (staging w) →
          List.length (samples_of k (statistics w'))
          = (List.length (samples_of k (statistics w)) + List.length runs)%nat.
Proof.
  induction runs as [|[date now] runs IH]; intros w w'; simpl.
  - intros [= <-]. split; [done|]. exists []. split_and!; [constructor | |].
    + simpl. by rewrite app_nil_r.
    + intros k _. lia.
  - run_transform.
    destruct (transform date now w) as [[n|e] w1] eqn:Hrun; [|done].
    intros Hruns.
    apply transform_to_core_Ok_inv in Hrun as (w0 & ts & _ & Hts & Hst & _ & Hstat & _).
    destruct (IH w1 w' Hruns) as (Hst' & stamps & Hstamps & Hstat' & Hcount).
    split; [congruence|]. exists (ts :: stamps). split_and!.
    + by constructor.
    + rewrite Hstat', Hstat, Hst. csimpl. by rewrite <- app_assoc.
    + intros k Hk. rewrite Hcount by (by rewrite Hst). rewrite Hstat.
      unfold samples_of at 1. rewrite filter_app, length_app.
      fold (samples_of k (statistics w)).
      fold (samples_of k (statistics_sample ts <$> map_to_list (staging w))).
      rewrite samples_of_one; [lia | apply NoDup_fst_map_to_list |].
      apply elem_of_dom in Hk as [s Hs]. apply list_elem_of_fmap.
      exists (k, s). split; [done|]. by apply elem_of_map_to_list.
Qed.

End Core.

Lemma transform_to_core_tracks_staging_witness :
  let w := {| staging := {[ "Y" := Demo.row "kept" "PT58S" ]};
              core := {[ "X" := Demo.core_video "gone" "PT2H" 7200 5 ]};
              statistics := []; logs := [] |} in
  let out := Demo.transform "7" 100 w in
  out.1 = Ok 1%nat
  ∧ dom (core out.2) ⊆ dom (staging out.2)
  ∧ core out.2 !! "X" = None.
Proof.
  intros w out.
  assert (out = (Ok 1%nat, out.2)) as Hrun by (by vm_compute).
  destruct (transform_to_core_tracks_staging Demo.interval_in Demo.epoch
              Demo.timestamp_in true "7" 100 w 1 out.2 Hrun) as (Hst & Hsub & Habsent).
  split_and!; [by rewrite Hrun | done |].
  apply Habsent. rewrite Hst. by vm_compute.
Defined.

Lemma upsert_core_videos_on_conflict_witness :
  let s := Demo.row "new title" "PT58S" in
  let w := {| staging := {[ "Y" := s ]};
              core := {[ "Y" := Demo.core_video "old title" "PT2H" 7200 5 ]};
              statistics := []; logs := [] |} in
  let out := upsert_core_videos Demo.interval_in Demo.epoch 100 w in
  out.1 = Ok ()
  ∧ ∃ new, core out.2 !! "Y" = Some new
           ∧ co_title new = "new title"
           ∧ co_duration_seconds new = 58
           ∧ co_duration_label new = "short"
           ∧ co_updated_at new = 100
           ∧ co_created_at new = 5
           ∧ co_duration new = "PT2H".
Proof.
  intros s w out.
  assert (out = (Ok (), out.2)) as Hrun by (by vm_compute).
  assert (staging w !! "Y" = Some s) as Hs by apply lookup_singleton_eq.
  destruct (upsert_core_videos_on_conflict Demo.interval_in Demo.epoch 100 w out.2 "Y" s
              Hrun Hs) as (new & Hnew & Htitle & Hseconds & Hlabel & Hupdated & Hold).
  replace (core w !! "Y") with (Some (Demo.core_video "old title" "PT2H" 7200 5)) in Hold
    by (symmetry; apply lookup_singleton_eq).
  destruct Hold as (Hcreated & _ & Hduration & _).
  split; [by rewrite Hrun|]. exists new.
  assert (co_duration_seconds new = 58) as H58.
  { assert (Demo.interval_in (st_duration s) = Some 58) as H by (by vm_compute).
    congruence. }
  split_and!; try done.
  by rewrite Hlabel, H58.
Defined.

Lemma transform_runs_append_statistics_witness :
  let w := {| staging := {[ "Y" := Demo.row "a" "PT58S" ]}; core := ∅;
              statistics := [StatisticsRow "Y" 0 0 0 6]; logs := [] |} in
  let out := Demo.transforms [("7", 100); ("8", 200)] w in
  out.1 = Ok ()
  ∧ statistics out.2
    = [StatisticsRow "Y" 0 0 0 6; StatisticsRow "Y" 1 2 3 7; StatisticsRow "Y" 1 2 3 8]
  ∧ List.length (samples_of "Y" (statistics out.2)) = 3%nat.
Proof.
  intros w out.
  assert (out = (Ok (), out.2)) as Hrun by (by vm_compute).
  destruct (transform_runs_append_statistics Demo.interval_in Demo.epoch
              Demo.timestamp_in true [("7", 100); ("8", 200)] w out.2 Hrun)
    as (_ & stamps & _ & _ & Hcount).
  split_and!; [by rewrite Hrun | by vm_compute |].
  rewrite (Hcount "Y"); [done|]. apply elem_of_dom. eexists. apply lookup_singleton_eq.
Defined.

(** The two scenarios of the specification. *)
Example scenario_short_and_long :
  let data := Demo.data [Demo.video "AAAAAAAAAAA" "a" "PT58S";
                         Demo.video "BBBBBBBBBBB" "b" "PT1M"] in
  let w1 := (sync_to_staging (Environment true) data (Demo.db ∅)).2 in
  let out := Demo.transform (extraction_date data) 100 w1 in
  out.1 = Ok 2%nat
  ∧ co_duration_label <$> core out.2 !! "AAAAAAAAAAA" = Some "short"
  ∧ co_duration_label <$> core out.2 !! "BBBBBBBBBBB" = Some "long"
  ∧ vs_recorded_at <$> statistics out.2 = [2; 2].
Proof. by vm_compute. Qed.

Example scenario_insert_update_delete :
  let old := Demo.row "old" "PT2H" in
  let w := Demo.db {[ "X" := old; "Y" := old; "Z" := old ]} in
  let data := Demo.data [Demo.video "Y" "y" "PT1M"; Demo.video "Z" "z" "PT1M";
                         Demo.video "W" "w" "PT1M"] in
  let out := sync_to_staging (Environment true) data w in
  out.1 = Ok 3%nat
  ∧ dom (staging out.2) = {[ "Y"; "Z"; "W" ]}
  ∧ logs out.2 = [InfoUniqueVideos 3; InfoAlreadyInStaging 3; InfoUpserted 1 2;
                  InfoDeletedFromStaging 1].
Proof. by vm_compute. Qed.

(* ===================================================================== *)
(** * Decimal literals: [int()] reads what [f"{n}"] writes *)
(* ===================================================================== *)

Section Decimal.

Lemma uint_chars_digits d :
  digits (list_ascii_of_string (NilEmpty.string_of_uint d)).
Proof. unfold digits. induction d; simpl; constructor; done. Qed.





Lemma uint_chars_nonempty d :
  ∃ c l, list_ascii_of_string (NilZero.string_of_uint d) = c :: l
         ∧ digits (c :: l).
Proof.
  assert (d = Decimal.Nil ∨ d ≠ Decimal.Nil) as [->|Hne]
    by (destruct d; [by left | by right..]).
  - eexists _, _. split; [reflexivity|]. by repeat constructor.
  - replace (NilZero.string_of_uint d) with (NilEmpty.string_of_uint d) by (by destruct d).
    pose proof (uint_chars_digits d) as Hd.
    destruct (list_ascii_of_string (NilEmpty.string_of_uint d)) as [|c l] eqn:Hchars.
    + by destruct d.
    + eauto.
Qed.





End Decimal.

(* ===================================================================== *)
(** * Further properties of [sync_to_staging] *)
(* ===================================================================== *)

Section Reconciliation.
Context {interval : Type}.
Implicit Types (w : world interval) (t : gmap string staging_row).

Lemma count_parameter_Ok c : (∃ z, count_parameter c = Ok z) ↔ readable_count c.
Proof. destruct c as [s|]; simpl; [done|]. split; eauto. Qed.

Lemma upsert_parameters_Ok data v :
  (∃ p, upsert_parameters data v = Ok p) ↔ is_Some (video_id v) ∧ complete_record v.
Proof.
  unfold upsert_parameters, complete_record.
  rewrite <- !count_parameter_Ok. split.
  - intros [p Hp].
    destruct (video_id v), (title v), (published_at v), (duration v),
      (duration_readable v); try done. csimpl in Hp.
    destruct (count_parameter (view_count v)); [|done]. csimpl in Hp.
    destruct (count_parameter (like_count v)); [|done]. csimpl in Hp.
    destruct (count_parameter (comment_count v)); [|done].
    split_and!; eauto.
  - intros ([k ->] & [a ->] & [b ->] & [c ->] & [d ->] & [x ->] & [y ->] & [z ->]).
    csimpl. eauto.
Qed.

Lemma dict_comprehension_Ok_inv vs : ∀ d u,
  dict_comprehension d vs = Ok u → Forall (λ v, is_Some (video_id v)) vs.
Proof.
  induction vs as [|v vs IH]; intros d u; csimpl; [constructor|].
  destruct (video_id v) as [k|] eqn:Hk; csimpl; [|done].
  intros Hu. constructor; [by rewrite Hk | by eapply IH].
Qed.

Lemma keep_last_values vs u :
  dict_comprehension [] vs = Ok u → keep_last vs ≡ₚ u.*2.
Proof.
  intros Hu. rewrite <- (keep_last_permutation vs u Hu), <- list_fmap_compose.
  change (snd ∘ with_key) with (@id raw_video). by rewrite list_fmap_id.
Qed.

(** A loop that raises makes the task raise, with the world the loop left. *)
Lemma sync_to_staging_loop_raises env data w u e w2 :
  dict_comprehension [] (videos data) = Ok u →
  upsert_loop data (existing_ids_of env w) u.*2 0 0
    (World (staging w) (core w) (statistics w)
       (logs w ++ [InfoUniqueVideos (List.length u);
                   if existing_ids_readable env
                   then InfoAlreadyInStaging (size (dom (staging w)))
                   else WarningExistingIdsUnavailable]))
  = (Raise e, w2) →
  sync_to_staging env data w = (Raise e, w2).
Proof.
  intros Hu. destruct (dedup_keyed data u Hu) as (_ & Hkeyed & _).
  unfold sync_to_staging. rewrite Hu.
  unfold read_existing_ids, existing_ids_of.
  destruct (existing_ids_readable env); run_task;
    rewrite (set_comprehension_keyed u Hkeyed); run_task;
    rewrite <- app_assoc, length_fmap; simpl; by intros ->.
Qed.

(** The loop stops at the first record without parameters; the records
    before it are upserted. *)
Lemma upsert_loop_raises data existing_ids vs1 v vs2 ps1 e :
  parameters_of data vs1 ps1 →
  upsert_parameters data v = Raise e →
  ∀ inserted updated w,
    upsert_loop data existing_ids (vs1 ++ v :: vs2) inserted updated w
    = (Raise e, World (upsert_all ps1 (staging w)) (core w) (statistics w) (logs w)).
Proof.
  unfold parameters_of. intros Hps He.
  induction Hps as [|v1 p1 vs1 ps1 Hp1 _ IH]; intros inserted updated w.
  - simpl. run_task. rewrite He. by destruct w.
  - simpl. run_task. rewrite Hp1. run_task.
    case_decide; rewrite IH; done.
Qed.

(** X1.  Whatever the snapshot and the outcome, [sync_to_staging] leaves
    [core.videos] and the statistics history as they were; and a run that
    raises has removed no row from staging. *)
Theorem sync_to_staging_frame env data w :
  core (sync_to_staging env data w).2 = core w
  ∧ statistics (sync_to_staging env data w).2 = statistics w
  ∧ (∀ e, (sync_to_staging env data w).1 = Raise e →
          dom (staging w) ⊆ dom (staging (sync_to_staging env data w).2)).
Proof.
  destruct (sync_to_staging_cases env data w)
    as [(u & ps & _ & _ & ->)|(e & w' & -> & Hsub & Hcore & Hstat & _)].
  - split_and!; [done | done | by intros e [=]].
  - split_and!; done.
Qed.

(** When the run completes: every record carries [video_id], and every
    record that is the last to carry its id yields upsert parameters. *)
Lemma sync_to_staging_Ok_iff env data w :
  (∃ n w', sync_to_staging env data w = (Ok n, w'))
  ↔ Forall (λ v, is_Some (video_id v)) (videos data)
    ∧ Forall complete_record (keep_last (videos data)).
Proof.
  split.
  - intros (n & w' & (u & ps & Hu & Hps & _)%sync_to_staging_Ok_inv).
    split; [by eapply dict_comprehension_Ok_inv|].
    rewrite (keep_last_values _ _ Hu).
    assert (Forall (λ v, ∃ p, upsert_parameters data v = Ok p) u.*2) as Hall
      by (apply parameters_of_exists; eauto).
    eapply Forall_impl; [exact Hall|]. intros v Hv.
    by apply upsert_parameters_Ok in Hv as [_ ?].
  - intros [Hids Hcomplete].
    destruct (dict_comprehension_Ok (videos data) [] Hids) as [u Hu].
    assert (∃ ps, parameters_of data u.*2 ps) as [ps Hps].
    { apply parameters_of_exists. rewrite <- (keep_last_values _ _ Hu).
      apply Forall_forall. intros v Hv. apply upsert_parameters_Ok. split.
      - apply keep_last_elem_of in Hv.
        by apply (proj1 (Forall_forall _ _) Hids).
      - by apply (proj1 (Forall_forall _ _) Hcomplete). }
    eexists _, _. by apply sync_to_staging_run.
Qed.

Lemma keep_last_ids vs x : x ∈ video_id <$> keep_last vs ↔ x ∈ video_id <$> vs.
Proof.
  induction vs as [|v vs IH]; csimpl; [done|].
  case_decide as Hv; csimpl; rewrite !elem_of_cons, IH; [|done].
  split; [by right|]. by intros [->|?].
Qed.

Lemma keep_last_NoDup_id vs : NoDup (video_id <$> vs) → keep_last vs = vs.
Proof.
  induction vs as [|v vs IH]; csimpl; [done|].
  intros [Hv Hvs]%NoDup_cons. rewrite decide_False by done. by rewrite IH.
Qed.

Lemma keep_last_is_Some vs :
  Forall (λ v, is_Some (video_id v)) (keep_last vs)
  ↔ Forall (λ v, is_Some (video_id v)) vs.
Proof.
  rewrite !Forall_forall. split; intros Hall v Hv.
  - assert (video_id v ∈ video_id <$> keep_last vs) as Hin.
    { apply keep_last_ids, list_elem_of_fmap. eauto. }
    apply list_elem_of_fmap in Hin as (v' & -> & Hv'). by apply Hall.
  - by apply Hall, keep_last_elem_of.
Qed.

(** C6 (amended).  The pre-deduplicated snapshot holds each id once, with
    the last record of the sequence that carries it.  Reconciling the snapshot
    completes exactly when reconciling the pre-deduplicated snapshot
    completes.  When it completes, the pre-deduplicated snapshot gives the
    same count and the same staging table; the count is the number of ids;
    each id of the snapshot holds the upsert of its last record on the row
    the id had before; and every other id is gone when the existing ids
    were read, and untouched when they were not. *)
Theorem sync_to_staging_last_occurrence_wins env data w :
  let pre := with_videos data (keep_last (videos data)) in
  NoDup (video_id <$> videos pre)
  ∧ (∀ k v, v ∈ videos pre ∧ video_id v = Some k
            ↔ last_occurrence k (videos data) = Some v)
  ∧ ((∃ n w1, sync_to_staging env data w = (Ok n, w1))
     ↔ (∃ n w2, sync_to_staging env pre w = (Ok n, w2)))
  ∧ ∀ n w1,
      sync_to_staging env data w = (Ok n, w1) →
      (∃ w2, sync_to_staging env pre w = (Ok n, w2) ∧ staging w2 = staging w1)
      ∧ n = size (snapshot_ids data)
      ∧ ∀ k,
          match last_occurrence k (videos data) with
          | Some v =>
              ∃ e, upsert_parameters data v = Ok (k, e)
                   ∧ staging w1 !! k = Some (upserted (staging w !! k) e)
          | None =>
              staging w1 !! k
              = if existing_ids_readable env then None else staging w !! k
          end.
Proof.
  intros pre. split_and!.
  - apply keep_last_NoDup.
  - intros k v. apply keep_last_spec.
  - rewrite !sync_to_staging_Ok_iff. unfold pre. cbn [videos with_videos].
    by rewrite keep_last_is_Some, (keep_last_NoDup_id (keep_last _))
      by apply keep_last_NoDup.
  - intros n w1 Hrun. split_and!.
    + pose proof Hrun as (u & ps & Hu & _)%sync_to_staging_Ok_inv.
      pose proof (keep_last_permutation _ _ Hu) as Hperm.
      destruct (sync_to_staging_permuted env data w u _ n w1 Hu Hperm Hrun)
        as (w2 & Hrun2 & Hst).
      exists w2. split; [|done]. rewrite <- Hrun2. unfold pre. do 3 f_equal.
      rewrite <- list_fmap_compose. change (snd ∘ with_key) with (@id raw_video).
      by rewrite list_fmap_id.
    + pose proof Hrun as (u & ps & Hu & _ & -> & _)%sync_to_staging_Ok_inv.
      destruct (dedup_keyed data u Hu) as (Hnd & _ & <-).
      by rewrite size_list_to_set, length_fmap.
    + intros k. apply (sync_to_staging_rows env data w w1 n k Hrun).
Qed.

(** X3.  The upserts are not one transaction: when a deduplicated record
    has no parameters, the run raises the error of that record after it
    has upserted the records before it; it deletes nothing and leaves the
    core tables alone. *)
Theorem sync_to_staging_partial_write env data w u1 k v u2 ps1 e :
  dict_comprehension [] (videos data) = Ok (u1 ++ (k, v) :: u2) →
  parameters_of data u1.*2 ps1 →
  upsert_parameters data v = Raise e →
  ∃ w', sync_to_staging env data w = (Raise e, w')
        ∧ staging w' = upsert_all ps1 (staging w)
        ∧ core w' = core w ∧ statistics w' = statistics w.
Proof.
  intros Hu Hps He. eexists. split.
  - apply (sync_to_staging_loop_raises env data w _ e _ Hu).
    rewrite fmap_app, fmap_cons. by apply upsert_loop_raises.
  - done.
Qed.

End Reconciliation.

Lemma sync_to_staging_last_occurrence_wins_witness :
  let first := Demo.video "Y" "first" "PT58S" in
  let other := Demo.video "Z" "other" "PT1M" in
  let last := Demo.video "Y" "last" "PT59S" in
  let data := Demo.data [first; other; last] in
  let w := Demo.db {[ "X" := Demo.row "old" "PT2H" ]} in
  let out := sync_to_staging (Environment true) data w in
  let pre := sync_to_staging (Environment true) (with_videos data [other; last]) w in
  out.1 = Ok 2%nat
  ∧ pre.1 = Ok 2%nat
  ∧ staging pre.2 = staging out.2
  ∧ dom (staging out.2) = {[ "Y"; "Z" ]}
  ∧ st_title <$> staging out.2 !! "Y" = Some "last".
Proof.
  intros first other last data w out pre.
  assert (out = (Ok 2%nat, out.2)) as Hrun by (by vm_compute).
  destruct (sync_to_staging_last_occurrence_wins (Environment true) data w)
    as (_ & _ & _ & Hlast).
  destruct (Hlast 2%nat out.2 Hrun) as ((w2 & Hpre & Hst) & _ & Hrows).
  change (with_videos data (keep_last (videos data)))
    with (with_videos data [other; last]) in Hpre.
  fold pre in Hpre.
  split_and!; [by rewrite Hrun | by rewrite Hpre | by rewrite Hpre | by vm_compute |].
  specialize (Hrows "Y").
  change (last_occurrence "Y" (videos data)) with (Some last) in Hrows.
  destruct Hrows as (e & He & ->). vm_compute in He. by injection He as <-.
Defined.

(** C6 fails as stated when one record cannot be written.  The
    snapshot upserts the id [Y] at the place of its first occurrence,
    before the record that raises; the pre-deduplicated snapshot meets that
    record first and writes nothing. *)
Lemma sync_to_staging_partial_upserts_differ :
  let first := Demo.video "Y" "first" "PT58S" in
  let bad := {| video_id := Some "Z"; title := Some "bad";
                published_at := Some "2025-09-13T16:00:01Z";
                duration := Some "PT1M"; duration_readable := Some "1:00";
                view_count := Some "1.5K"; like_count := None;
                comment_count := None |} in
  let last := Demo.video "Y" "last" "PT59S" in
  let data := Demo.data [first; bad; last] in
  let pre := with_videos data (keep_last (videos data)) in
  let w := Demo.db ∅ in
  videos pre = [bad; last]
  ∧ (sync_to_staging (Environment true) data w).1 = Raise (ValueError "1.5K")
  ∧ (sync_to_staging (Environment true) pre w).1 = Raise (ValueError "1.5K")
  ∧ dom (staging (sync_to_staging (Environment true) data w).2) = {[ "Y" ]}
  ∧ staging (sync_to_staging (Environment true) pre w).2 = ∅.
Proof. by vm_compute. Qed.

Lemma sync_to_staging_partial_write_witness :
  let a := Demo.video "A" "a" "PT58S" in
  let b := RawVideo (Some "B") None (Some "2025") (Some "PT1M") (Some "1:00")
             None None None in
  let c := Demo.video "C" "c" "PT2H" in
  let data := Demo.data [a; b; c] in
  let out := sync_to_staging (Environment true) data (Demo.db ∅) in
  out.1 = Raise (KeyError "title")
  ∧ dom (staging out.2) = {[ "A" ]}.
Proof.
  intros a b c data out.
  destruct (sync_to_staging_partial_write (Environment true) data (Demo.db ∅)
              [("A", a)] "B" b [("C", c)]
              [("A", StagingRow "a" "2025-09-13T16:00:01Z" "PT58S" "0:00"
                       10 0 3 "UCX6" "MrBeast" "2")]
              (KeyError "title") eq_refl)
    as (w' & Hrun & Hst & _).
  - constructor; [reflexivity | constructor].
  - reflexivity.
  - subst out. rewrite Hrun. split; [done|]. simpl. rewrite Hst. by vm_compute.
Defined.

Lemma upsert_counts (existing_ids : gset string) (ps : list (string * staging_row)) :
  NoDup ps.*1 →
  inserted_count existing_ids ps = size (list_to_set ps.*1 ∖ existing_ids)
  ∧ updated_count existing_ids ps = size (list_to_set ps.*1 ∩ existing_ids).
Proof.
  unfold inserted_count, updated_count.
  pose proof (size_union (C:=gset string)) as Hunion.
  induction ps as [|[k e] ps IH]; csimpl.
  - intros _. split; symmetry; apply size_empty_iff; set_solver.
  - intros [Hk [IHi IHu]%IH]%NoDup_cons. rewrite !filter_cons. simpl.
    assert (k ∉@{gset string} list_to_set ps.*1) as Hk' by (by rewrite elem_of_list_to_set).
    destruct (decide (k ∈ existing_ids)) as [Hin|Hnin].
    + rewrite decide_False by (intros Hc; by apply Hc). simpl. split.
      * rewrite IHi. f_equal. set_solver.
      * rewrite IHu.
        replace (({[k]} ∪ list_to_set ps.*1) ∩ existing_ids)
          with ({[k]} ∪ (list_to_set ps.*1 ∩ existing_ids) : gset string) by set_solver.
        rewrite Hunion by set_solver. by rewrite size_singleton.
    + rewrite decide_True by done. simpl. split.
      * rewrite IHi.
        replace (({[k]} ∪ list_to_set ps.*1) ∖ existing_ids)
          with ({[k]} ∪ (list_to_set ps.*1 ∖ existing_ids) : gset string) by set_solver.
        rewrite Hunion by set_solver. by rewrite size_singleton.
      * rewrite IHu. f_equal. set_solver.
Qed.

(** X4.  The counters of a run that read the existing ids and completed:
    the return value is the number of ids of the snapshot; the log counts
    as inserted the ids that were not in staging, as updated those that
    were, and as deleted the staging ids the snapshot lacks; and the size
    of the staging table moves by exactly inserted minus deleted. *)
Theorem sync_to_staging_counters {interval} env data (w w' : world interval) n :
  existing_ids_readable env = true →
  sync_to_staging env data w = (Ok n, w') →
  let existing_ids : gset string := dom (staging w) in
  let ids := snapshot_ids data in
  n = size ids
  ∧ logs w'
    = logs w
      ++ [InfoUniqueVideos (size ids);
          InfoAlreadyInStaging (size existing_ids);
          InfoUpserted (size (ids ∖ existing_ids)) (size (ids ∩ existing_ids))]
      ++ (if decide (existing_ids ∖ ids ≠ ∅)
          then [InfoDeletedFromStaging (size (existing_ids ∖ ids))] else [])
  ∧ (size (staging w') + size (existing_ids ∖ ids)
     = size (staging w) + size (ids ∖ existing_ids))%nat.
Proof.
  intros Hread Hrun existing_ids ids.
  pose proof Hrun as (u & ps & Hu & Hps & -> & ->)%sync_to_staging_Ok_inv.
  destruct (dedup_keyed data u Hu) as (Hnd & Hkeyed & Hids). fold ids in Hids.
  pose proof (parameters_of_keys data u ps Hkeyed Hps) as Hkeys.
  assert (List.length u = size ids) as Hlen.
  { rewrite <- Hids, <- (length_fmap fst u). symmetry. by apply size_list_to_set. }
  destruct (upsert_counts existing_ids ps) as [Hins Hupd]; [by rewrite Hkeys|].
  rewrite Hkeys, Hids in Hins, Hupd.
  split_and!; [done | |].
  - unfold reconciled, existing_ids_of. rewrite Hread. cbn [logs].
    fold existing_ids. by rewrite Hids, Hins, Hupd, Hlen.
  - rewrite <- !size_dom, (reconciled_dom env data u ps w Hu Hps), Hread.
    fold existing_ids ids.
    pose proof (size_union (C:=gset string)) as Hunion.
    clearbody existing_ids ids. clear -Hunion.
    rewrite <- !Hunion by set_solver. f_equal. clear Hunion.
    apply set_eq. intros x. rewrite !elem_of_union, !elem_of_difference.
    destruct (decide (x ∈ ids)), (decide (x ∈ existing_ids)); tauto.
Qed.

Lemma sync_to_staging_counters_witness :
  let old := Demo.row "old" "PT2H" in
  let w := Demo.db {[ "X" := old; "Y" := old; "Z" := old ]} in
  let data := Demo.data [Demo.video "Y" "y" "PT1M"; Demo.video "Z" "z" "PT1M";
                         Demo.video "W" "w" "PT1M"; Demo.video "W" "w2" "PT1M"] in
  let out := sync_to_staging (Environment true) data w in
  out.1 = Ok 3%nat
  ∧ (size (staging out.2) + size (dom (staging w) ∖ snapshot_ids data)
     = size (staging w) + size (snapshot_ids data ∖ dom (staging w)))%nat.
Proof.
  intros old w data out.
  assert (out = (Ok 3%nat, out.2)) as Hrun by (by vm_compute).
  destruct (sync_to_staging_counters (Environment true) data w out.2 3 eq_refl Hrun)
    as (_ & _ & Hsize).
  split; [by rewrite Hrun | exact Hsize].
Defined.

Lemma staging_do_update_twice old excluded :
  staging_do_update (upserted old excluded) excluded = upserted old excluded.
Proof. destruct old as [old|]; [done|]. by destruct excluded. Qed.

(** X5.  Reconciling the same snapshot again changes nothing in staging:
    after a run that read the existing ids and completed, a second run on
    the same snapshot completes, leaves every staging row as it is, counts
    every id as updated and none as inserted, and deletes nothing. *)
Theorem sync_to_staging_idempotent {interval} env data (w w1 : world interval) n :
  existing_ids_readable env = true →
  sync_to_staging env data w = (Ok n, w1) →
  sync_to_staging env data w1
  = (Ok n, {| staging := staging w1; core := core w1; statistics := statistics w1;
              logs := logs w1 ++ [InfoUniqueVideos n; InfoAlreadyInStaging n;
                                  InfoUpserted 0 n] |}).
Proof.
  intros Hread Hrun.
  pose proof Hrun as (u & ps & Hu & Hps & -> & Hw1)%sync_to_staging_Ok_inv.
  destruct (dedup_keyed data u Hu) as (Hnd & Hkeyed & Hids).
  pose proof (parameters_of_keys data u ps Hkeyed Hps) as Hkeys.
  assert (dom (staging w1) = snapshot_ids data) as Hdom.
  { rewrite Hw1, (reconciled_dom env data u ps w Hu Hps). by rewrite Hread. }
  rewrite (sync_to_staging_run env data w1 u ps Hu Hps).
  unfold reconciled at 1, existing_ids_of. rewrite Hread, Hdom, Hids.
  replace (snapshot_ids data ∖ snapshot_ids data) with (∅ : gset string) by set_solver.
  rewrite decide_False by (intros Hc; by apply Hc).
  rewrite staging_delete_empty, app_nil_r.
  destruct (upsert_counts (snapshot_ids data) ps) as [-> ->]; [by rewrite Hkeys|].
  rewrite Hkeys, Hids.
  replace (snapshot_ids data ∖ snapshot_ids data) with (∅ : gset string) by set_solver.
  replace (snapshot_ids data ∩ snapshot_ids data) with (snapshot_ids data) by set_solver.
  assert (size (snapshot_ids data) = List.length u) as ->.
  { rewrite <- Hids, <- (length_fmap fst u). by apply size_list_to_set. }
  rewrite size_empty. do 2 f_equal.
  apply map_eq. intros k.
  destruct (decide (k ∈ ps.*1)) as [Hin|Hnin].
  - apply list_elem_of_fmap in Hin as ([k' e] & -> & He).
    rewrite (upsert_all_lookup_in ps _ k' e) by (by rewrite ?Hkeys).
    simpl. rewrite Hw1. unfold reconciled, staging_delete. cbn [staging].
    assert (filter (λ kv : string * staging_row,
                      kv.1 ∉ existing_ids_of env w ∖ list_to_set u.*1)
              (upsert_all ps (staging w)) !! k'
            = Some (upserted (staging w !! k') e)) as ->.
    { apply map_lookup_filter_Some. split.
      - apply upsert_all_lookup_in; [by rewrite Hkeys | done].
      - simpl. rewrite not_elem_of_difference. right.
        rewrite <- Hkeys. apply elem_of_list_to_set, list_elem_of_fmap. by exists (k', e). }
    simpl. by rewrite staging_do_update_twice.
  - by rewrite upsert_all_lookup_notin.
Qed.

Lemma sync_to_staging_idempotent_witness :
  let w := Demo.db {[ "X" := Demo.row "old" "PT2H"; "Y" := Demo.row "old" "PT1M" ]} in
  let data := Demo.data [Demo.video "Y" "y" "PT58S"; Demo.video "W" "w" "PT1M"] in
  let w1 := (sync_to_staging (Environment true) data w).2 in
  (sync_to_staging (Environment true) data w).1 = Ok 2%nat
  ∧ staging (sync_to_staging (Environment true) data w1).2 = staging w1
  ∧ logs (sync_to_staging (Environment true) data w1).2
    = logs w1 ++ [InfoUniqueVideos 2; InfoAlreadyInStaging 2; InfoUpserted 0 2].
Proof.
  intros w data w1.
  assert (sync_to_staging (Environment true) data w = (Ok 2%nat, w1)) as Hrun
    by (by vm_compute).
  rewrite (sync_to_staging_idempotent (Environment true) data w w1 2 eq_refl Hrun).
  split; [by rewrite Hrun | done].
Defined.

(** X6.  Row by row, after a run that completes: an id of the snapshot
    holds the title, the counters and the extraction date of the last
    record that carries it; its publication date, durations and channel
    are those of the row staging already had for it, and those of that
    record and of the snapshot only when the id was new. *)
Theorem sync_to_staging_last_record_wins {interval} env data
    (w w' : world interval) n k v :
  sync_to_staging env data w = (Ok n, w') →
  last_occurrence k (videos data) = Some v →
  ∃ row,
    staging w' !! k = Some row
    ∧ title v = Some (st_title row)
    ∧ count_parameter (view_count v) = Ok (st_view_count row)
    ∧ count_parameter (like_count v) = Ok (st_like_count row)
    ∧ count_parameter (comment_count v) = Ok (st_comment_count row)
    ∧ st_extraction_date row = extraction_date data
    ∧ match staging w !! k with
      | Some old =>
          st_published_at row = st_published_at old
          ∧ st_duration row = st_duration old
          ∧ st_duration_readable row = st_duration_readable old
          ∧ st_channel_id row = st_channel_id old
          ∧ st_channel_handle row = st_channel_handle old
      | None =>
          published_at v = Some (st_published_at row)
          ∧ duration v = Some (st_duration row)
          ∧ duration_readable v = Some (st_duration_readable row)
          ∧ st_channel_id row = channel_id data
          ∧ st_channel_handle row = channel_handle data
      end.
Proof.
  intros Hrun Hlast. pose proof (sync_to_staging_rows env data w w' n k Hrun) as Hrow.
  rewrite Hlast in Hrow. destruct Hrow as (e & Hp & ->).
  eexists. split; [done|]. unfold upsert_parameters in Hp.
  destruct (video_id v), (title v), (published_at v),
    (duration v), (duration_readable v); try done. csimpl in Hp.
  destruct (count_parameter (view_count v)); [|done]. csimpl in Hp.
  destruct (count_parameter (like_count v)); [|done]. csimpl in Hp.
  destruct (count_parameter (comment_count v)); [|done]. csimpl in Hp.
  injection Hp as _ <-. destruct (staging w !! k); simpl; done.
Qed.

Lemma sync_to_staging_last_record_wins_witness :
  let first := Demo.video "Y" "first" "PT58S" in
  let last := Demo.video "Y" "last" "PT59S" in
  let data := Demo.data [first; last] in
  let w := Demo.db {[ "Y" := Demo.row "old" "PT2H" ]} in
  let out := sync_to_staging (Environment true) data w in
  out.1 = Ok 1%nat
  ∧ ∃ row, staging out.2 !! "Y" = Some row
           ∧ st_title row = "last" ∧ st_duration row = "PT2H".
Proof.
  intros first last data w out.
  assert (out = (Ok 1%nat, out.2)) as Hrun by (by vm_compute).
  destruct (sync_to_staging_last_record_wins (Environment true) data w out.2 1 "Y" last
              Hrun eq_refl) as (row & Hrow & Htitle & _ & _ & _ & _ & Hold).
  replace (staging w !! "Y") with (Some (Demo.row "old" "PT2H")) in Hold
    by (symmetry; apply lookup_singleton_eq).
  destruct Hold as (_ & Hduration & _).
  split; [by rewrite Hrun|]. exists row. split_and!; [done | | done].
  simpl in Htitle. congruence.
Defined.

(* ===================================================================== *)
(** * Further properties of the duration codec *)
(* ===================================================================== *)

Example matches_readable_accepts :
  matches_readable <$> ["0:35"; "13:11"; "1:23:45"; "12:05"; "100:59"]
  = [true; true; true; true; true].
Proof. reflexivity. Qed.
Example matches_readable_rejects :
  matches_readable <$> ["5:5"; "1:2:3"; "abc"; "12"; "12:"; ":30"]
  = [false; false; false; false; false; false].
Proof. reflexivity. Qed.

Section Durations.


Lemma list_ascii_of_string_app s1 s2 :
  list_ascii_of_string (s1 ++ s2)%string
  = list_ascii_of_string s1 ++ list_ascii_of_string s2.
Proof.
  induction s1 as [|c s1 IH]; [done|].
  change (c :: list_ascii_of_string (s1 ++ s2)%string
          = c :: (list_ascii_of_string s1 ++ list_ascii_of_string s2)).
  by f_equal.
Qed.

(** The decimal text of a number that is not negative. *)
Lemma format_d_digits n :
  0 ≤ n → ∃ c l, list_ascii_of_string (format_d n) = c :: l ∧ digits (c :: l).
Proof.
  intros Hn. unfold format_d.
  destruct n as [|p|p]; [| |lia];
    cbn [Z.to_int NilZero.string_of_int]; apply uint_chars_nonempty.
Qed.






End Durations.

Section ReadableFormat.

Lemma skip_digits_run ds c rest :
  digits ds → Py.is_digit c = false → skip_digits (ds ++ c :: rest) = c :: rest.
Proof.
  intros Hds Hc. induction Hds as [|d ds Hd _ IH]; simpl; [by rewrite Hc|].
  by rewrite Hd.
Qed.

(** Minutes and seconds are written with two digits. *)
Lemma format_02d_two_digits n :
  0 ≤ n < 60 →
  ∃ a b, list_ascii_of_string (format_02d n) = [a; b]
         ∧ Py.is_digit a = true ∧ Py.is_digit b = true.
Proof.
  intros Hn.
  assert (forallb (λ k, match list_ascii_of_string (format_02d (Z.of_nat k)) with
                        | [a; b] => Py.is_digit a && Py.is_digit b
                        | _ => false
                        end) (seq 0 60) = true) as Hall by (by vm_compute).
  pose proof (proj1 (forallb_forall _ _) Hall (Z.to_nat n)) as Hk.
  cbv beta in Hk. rewrite Z2Nat.id in Hk by lia.
  destruct (list_ascii_of_string (format_02d n)) as [|a [|b [|? ?]]];
    try (by discriminate Hk; apply in_seq; lia).
  exists a, b. apply andb_prop in Hk; [done|]. apply in_seq. lia.
Qed.

(** X9.  Whatever the duration text and whatever the parser answers, the
    readable duration has the form the quality checks ask of
    [duration_readable]: digits, a colon, two digits, and possibly a colon
    and two more digits. *)
Theorem iso_duration_to_readable_format total_seconds duration :
  matches_readable (iso_duration_to_readable total_seconds duration) = true.
Proof.
  unfold iso_duration_to_readable.
  destruct (total_seconds duration) as [t|]; [|reflexivity].
  pose proof (Z.mod_pos_bound t 60 ltac:(lia)) as Hs.
  pose proof (Z.mod_pos_bound (t / 60) 60 ltac:(lia)) as Hm.
  destruct (format_02d_two_digits _ Hs) as (x & y & Hxy & Hx & Hy).
  destruct (format_02d_two_digits _ Hm) as (a & b & Hab & Ha & Hb).
  destruct (Z.ltb_spec 0 (t / 60 / 60)) as [Hh|Hh]; unfold matches_readable.
  - destruct (format_d_digits (t / 60 / 60) ltac:(lia)) as (c & l & Hcl & Hd).
    rewrite !list_ascii_of_string_app, Hcl, Hab, Hxy. simpl.
    inversion Hd as [|? ? Hc Hl]; subst. rewrite Hc.
    rewrite (skip_digits_run l ":" _ Hl eq_refl). by rewrite Ha, Hb, Hx, Hy.
  - destruct (format_d_digits ((t / 60) mod 60) ltac:(lia)) as (c & l & Hcl & Hd).
    rewrite !list_ascii_of_string_app, Hcl, Hxy. simpl.
    inversion Hd as [|? ? Hc Hl]; subst. rewrite Hc.
    rewrite (skip_digits_run l ":" _ Hl eq_refl). by rewrite Hx, Hy.
Qed.

End ReadableFormat.

(* ===================================================================== *)
(** * Further properties of [transform_to_core] *)
(* ===================================================================== *)

Section Transformation.
Context {interval : Type}.
Context (interval_in : string → option interval).
Context (epoch : interval → Q).
Context (timestamp_in : string → option Z).
Context (statistics_keyed : bool).
Implicit Types (w : world interval) (c : gmap string (core_row interval)).

Abbreviation calc' := (duration_calc interval_in epoch).
Abbreviation select' := (select_duration_calc interval_in epoch).
Abbreviation transform' :=
  (transform_to_core interval_in epoch timestamp_in statistics_keyed).

Lemma select_duration_calc_Raise now rows e :
  select' now rows = Raise e →
  ∃ k s, (k, s) ∈ rows ∧ interval_in (st_duration s) = None
         ∧ e = InvalidInterval (st_duration s).
Proof.
  induction rows as [|[k s] rows IH]; csimpl; [done|].
  unfold duration_calc at 1.
  destruct (interval_in (st_duration s)) as [d|] eqn:Hd; csimpl.
  - destruct (select' now rows) as [cs|e'] eqn:Hcs; csimpl; [done|].
    intros [= <-]. destruct (IH eq_refl) as (k' & s' & Hin & Hnone & ->).
    exists k', s'. split_and!; [by right | done | done].
  - intros [= <-]. exists k, s. split_and!; [by left | done | done].
Qed.

(** The rows of core after the first two statements. *)
Lemma core_after_delete now st c cs k :
  select' now (map_to_list st) = Ok cs →
  core_delete st (foldl (core_upsert now) c cs) !! k
  = match st !! k with
    | Some s =>
        match calc' now s with
        | Ok e => Some (core_upserted now (c !! k) e)
        | Raise _ => None
        end
    | None => None
    end.
Proof.
  intros Hcs.
  assert (upsert_core_videos interval_in epoch now (World st c [] [])
          = (Ok (), World st (foldl (core_upsert now) c cs) [] [])) as Hrun.
  { unfold upsert_core_videos. run_transform. by rewrite Hcs. }
  destruct (upsert_core_videos_Ok _ _ _ _ _ Hrun) as (_ & _ & _ & _ & Hin).
  cbn [staging core] in Hin. rewrite core_delete_lookup.
  destruct (st !! k) as [s|] eqn:Hs.
  - rewrite decide_True by (apply elem_of_dom; eauto).
    destruct (Hin k s Hs) as (e & -> & ->). done.
  - rewrite decide_False; [done|]. by intros [? ?]%elem_of_dom; congruence.
Qed.

(** X10.  One duration in staging that is not an interval fails the whole
    transformation in its first statement: the run raises for such a
    duration and no table has changed; the log has gained the start line
    only. *)
Theorem transform_to_core_all_or_nothing date now w :
  (∃ k s, staging w !! k = Some s ∧ interval_in (st_duration s) = None) →
  ∃ k s, staging w !! k = Some s ∧ interval_in (st_duration s) = None
         ∧ transform' date now w
           = (Raise (InvalidInterval (st_duration s)),
              {| staging := staging w; core := core w; statistics := statistics w;
                 logs := logs w ++ [InfoTransformStarted] |}).
Proof.
  intros (k & s & Hs & Hbad).
  unfold transform_to_core, upsert_core_videos. run_transform.
  destruct (select' now (map_to_list (staging w))) as [cs|e] eqn:Hcs.
  - exfalso.
    assert (Forall (λ p, is_Some (interval_in (st_duration p.2)))
              (map_to_list (staging w))) as Hall
      by (apply (select_duration_calc_total interval_in epoch now); eauto).
    apply elem_of_map_to_list in Hs.
    apply (proj1 (Forall_forall _ _) Hall) in Hs. simpl in Hs.
    rewrite Hbad in Hs. by destruct Hs.
  - apply select_duration_calc_Raise in Hcs as (k' & s' & Hin & Hnone & ->).
    exists k', s'. split_and!; [by apply elem_of_map_to_list | done | done].
Qed.

Lemma key_conflict_None old new :
  key_conflict statistics_keyed old new = None
  ↔ (statistics_keyed = true →
     ∀ r, r ∈ new → statistics_key r ∉ statistics_key <$> old).
Proof.
  unfold key_conflict. destruct statistics_keyed; [|done].
  split.
  - intros Hnone _ r Hr Hin.
    apply list_elem_of_In in Hr. apply (find_none _ _ Hnone r) in Hr.
    by apply bool_decide_eq_false in Hr.
  - intros Hfree. specialize (Hfree eq_refl).
    destruct (List.find _ new) as [r|] eqn:Hfind; [|done].
    apply find_some in Hfind as [Hr%list_elem_of_In Hin%bool_decide_eq_true].
    by destruct (Hfree r Hr).
Qed.

(** X11.  The transformation completes exactly when every duration in
    staging is an interval, the extraction date is a timestamp and, if the
    statistics table is keyed, no staging id already has a row at that
    timestamp. *)
Theorem transform_to_core_completes_iff date now w :
  (∃ n w', transform' date now w = (Ok n, w'))
  ↔ (∀ k s, staging w !! k = Some s → is_Some (interval_in (st_duration s)))
    ∧ ∃ recorded_at,
        timestamp_in date = Some recorded_at
        ∧ (statistics_keyed = true →
           ∀ k, k ∈ dom (staging w) →
                (k, recorded_at) ∉ statistics_key <$> statistics w).
Proof.
  split.
  - intros (n & w' & Hrun). split.
    + intros k s Hs. destruct (interval_in (st_duration s)) eqn:Hd; [eauto|].
      destruct (transform_to_core_invalid_interval interval_in epoch timestamp_in
                  statistics_keyed date now w) as (e & w'' & Hraise & _).
      * intros Hall. apply elem_of_map_to_list in Hs.
        apply (proj1 (Forall_forall _ _) Hall) in Hs. simpl in Hs.
        rewrite Hd in Hs. by destruct Hs.
      * rewrite Hraise in Hrun. done.
    + revert Hrun. unfold transform_to_core. run_transform.
      destruct (upsert_core_videos _ _ _ _) as [[[]|e] w1] eqn:Hupsert; [|done].
      destruct (upsert_core_videos_Ok _ _ _ _ _ Hupsert) as (Hst & Hstat & _).
      match goal with
      | |- context [delete_from_core ?w2] => destruct (delete_from_core_run w2) as [l ->]
      end.
      cbn [staging core statistics logs] in *.
      destruct (insert_statistics _ _ _ _) as [[[]|e] w3] eqn:Hinsert; [|done].
      apply insert_statistics_Ok in Hinsert as (ts & Hts & Hkey & _).
      cbn [staging core statistics logs] in Hkey. rewrite Hst, Hstat in Hkey.
      intros _. exists ts. split; [done|]. intros Hkeyed k [s Hs]%elem_of_dom.
      apply (proj1 (key_conflict_None _ _) Hkey Hkeyed
               (statistics_sample ts (k, s))).
      apply list_elem_of_fmap. exists (k, s). split; [done|].
      by apply elem_of_map_to_list.
  - intros (Hall & ts & Hts & Hfree).
    apply (transform_to_core_completes interval_in epoch timestamp_in
             statistics_keyed date now w ts); [|done|].
    + apply Forall_forall. intros [k s] Hs%elem_of_map_to_list. by apply (Hall k s).
    + apply key_conflict_None. intros Hkeyed r ([k s] & -> & Hs)%list_elem_of_fmap.
      apply elem_of_map_to_list in Hs. apply (Hfree Hkeyed k). apply elem_of_dom. eauto.
Qed.

(** X12.  A transformation that completes returns the number of rows of
    staging, and [core.videos] then holds exactly the ids of staging, each
    with the title of its staging row, the interval of its duration, the
    label of that interval and [NOW()] as [updated_at]. *)
Theorem transform_to_core_mirror date now w n w' :
  transform' date now w = (Ok n, w') →
  n = size (staging w)
  ∧ dom (core w') = dom (staging w)
  ∧ ∀ k row, core w' !! k = Some row →
      ∃ s, staging w !! k = Some s
           ∧ co_title row = st_title s
           ∧ interval_in (st_duration s) = Some (co_duration_seconds row)
           ∧ co_duration_label row = sql_duration_label (epoch (co_duration_seconds row))
           ∧ (co_duration_label row = "short" ∨ co_duration_label row = "long")
           ∧ co_updated_at row = now.
Proof.
  intros Hrun.
  pose proof (transform_to_core_keys _ _ _ _ _ _ _ _ _ Hrun) as Hkeys.
  apply transform_to_core_Ok_inv in Hrun as (w1 & ts & Hupsert & _ & _ & Hcore & _ & ->).
  split_and!; [by rewrite <- !size_dom, Hkeys | done |].
  intros k row Hrow.
  assert (k ∈ dom (staging w)) as [s Hs]%elem_of_dom
    by (rewrite <- Hkeys; apply elem_of_dom; eauto).
  destruct (upsert_core_videos_Ok _ _ _ _ _ Hupsert) as (_ & _ & _ & _ & Hin).
  destruct (Hin k s Hs) as (e & He & Hnew). cbn [core] in Hnew.
  rewrite Hcore, core_delete_lookup, decide_True, Hnew in Hrow
    by (apply elem_of_dom; eauto).
  injection Hrow as <-. exists s. split; [done|].
  unfold duration_calc in He. destruct (interval_in (st_duration s)) as [d|]; [|done].
  injection He as <-.
  assert (∀ q, sql_duration_label q = "short" ∨ sql_duration_label q = "long") as Hlabel.
  { intros q. unfold sql_duration_label. destruct (q ?= 60)%Q; auto. }
  destruct (core w !! k); simpl; split_and!; done.
Qed.

End Transformation.

Section Reruns.
Context {interval : Type}.
Context (interval_in : string → option interval).
Context (epoch : interval → Q).
Context (timestamp_in : string → option Z).
Context (statistics_keyed : bool).
Implicit Types (w : world interval) (c : gmap string (core_row interval)).

Abbreviation calc'' := (duration_calc interval_in epoch).
Abbreviation select'' := (select_duration_calc interval_in epoch).
Abbreviation transform'' :=
  (transform_to_core interval_in epoch timestamp_in statistics_keyed).

(** The core table of a transformation that completes. *)
Lemma transform_to_core_core date now w n w' k :
  transform'' date now w = (Ok n, w') →
  core w' !! k
  = match staging w !! k with
    | Some s =>
        match calc'' now s with
        | Ok e => Some (core_upserted now (core w !! k) e)
        | Raise _ => None
        end
    | None => None
    end.
Proof.
  intros (w1 & ts & Hupsert & _ & _ & Hcore & _)%transform_to_core_Ok_inv.
  destruct (upsert_core_videos_Ok _ _ _ _ _ Hupsert) as (_ & _ & _ & _ & Hin).
  cbn [staging core] in Hin. rewrite Hcore, core_delete_lookup.
  destruct (staging w !! k) as [s|] eqn:Hs.
  - rewrite decide_True by (apply elem_of_dom; eauto).
    destruct (Hin k s Hs) as (e & -> & ->). done.
  - rewrite decide_False; [done|]. intros [? ?]%elem_of_dom. congruence.
Qed.

(** X13.  Transforming again while staging has not changed moves nothing
    in [core.videos] but [updated_at]: after two runs that complete, every
    core row is the row the first run left, with the [NOW()] of the second
    run as [updated_at]. *)
Theorem transform_to_core_again date1 now1 date2 now2 w w1 w2 n1 n2 :
  transform'' date1 now1 w = (Ok n1, w1) →
  transform'' date2 now2 w1 = (Ok n2, w2) →
  n2 = n1 ∧ core w2 = touched now2 <$> core w1.
Proof.
  intros Hrun1 Hrun2.
  pose proof Hrun1 as (_ & _ & _ & _ & Hst1 & _ & _ & Hn1)%transform_to_core_Ok_inv.
  pose proof (transform_to_core_keys _ _ _ _ _ _ _ _ _ Hrun1) as Hkeys1.
  pose proof (transform_to_core_keys _ _ _ _ _ _ _ _ _ Hrun2) as Hkeys2.
  pose proof Hrun2 as (_ & _ & _ & _ & _ & _ & _ & Hn2)%transform_to_core_Ok_inv.
  split.
  - by rewrite Hn1, Hn2, <- !size_dom, Hkeys2, Hkeys1, Hst1.
  - apply map_eq. intros k. rewrite lookup_fmap.
    rewrite (transform_to_core_core _ _ _ _ _ k Hrun2), Hst1.
    rewrite (transform_to_core_core _ _ _ _ _ k Hrun1).
    destruct (staging w !! k) as [s|]; [|done].
    unfold duration_calc. destruct (interval_in (st_duration s)) as [d|]; [|done].
    simpl. f_equal. by destruct (core w !! k).
Qed.

(** X14.  [created_at] is kept through any number of transformations that
    complete while the id stays in staging. *)
Theorem transform_runs_keep_created_at runs w w' k old :
  transform_runs interval_in epoch timestamp_in statistics_keyed runs w = (Ok (), w') →
  k ∈ dom (staging w) → core w !! k = Some old →
  ∃ new, core w' !! k = Some new ∧ co_created_at new = co_created_at old.
Proof. apply transform_runs_created_at. Qed.

(** X15.  The statements of the transformation are not one transaction:
    when every duration is an interval but the extraction date is not a
    timestamp, the run raises in its last statement, after [core.videos]
    has been brought in line with staging; the statistics history is
    unchanged. *)
Theorem transform_to_core_invalid_timestamp date now w :
  (∀ k s, staging w !! k = Some s → is_Some (interval_in (st_duration s))) →
  timestamp_in date = None →
  ∃ w', transform'' date now w = (Raise (InvalidTimestamp date), w')
        ∧ staging w' = staging w
        ∧ dom (core w') = dom (staging w)
        ∧ statistics w' = statistics w.
Proof.
  intros Hall Hts.
  assert (∃ cs, select'' now (map_to_list (staging w)) = Ok cs) as [cs Hcs].
  { apply (select_duration_calc_total interval_in epoch now).
    apply Forall_forall. intros [k s] Hs%elem_of_map_to_list. by apply (Hall k s). }
  unfold transform_to_core, upsert_core_videos. run_transform. rewrite Hcs.
  match goal with
  | |- context [delete_from_core ?w2] => destruct (delete_from_core_run w2) as [l ->]
  end.
  unfold insert_statistics. rewrite Hts. run_transform.
  eexists. split_and!; [done | done | | done]. cbn [core staging].
  apply set_eq. intros k.
  rewrite elem_of_dom, (core_after_delete interval_in epoch now _ _ cs k Hcs).
  rewrite elem_of_dom. destruct (staging w !! k) as [s|] eqn:Hs.
  - destruct (Hall k s Hs) as [d Hd]. unfold duration_calc. rewrite Hd.
    split; eauto.
  - split; by intros [? ?].
Qed.

End Reruns.

Lemma transform_to_core_all_or_nothing_witness :
  let w := Demo.db {[ "A" := Demo.row "a" "PT58S"; "B" := Demo.row "b" "1 minute" ]} in
  ∃ k s, staging w !! k = Some s ∧ Demo.interval_in (st_duration s) = None
         ∧ Demo.transform "7" 100 w
           = (Raise (InvalidInterval (st_duration s)),
              {| staging := staging w; core := core w; statistics := statistics w;
                 logs := logs w ++ [InfoTransformStarted] |}).
Proof.
  intros w.
  apply (transform_to_core_all_or_nothing Demo.interval_in Demo.epoch
           Demo.timestamp_in true "7" 100 w).
  exists "B", (Demo.row "b" "1 minute"). split; by vm_compute.
Defined.

Lemma transform_to_core_mirror_witness :
  let w := Demo.db {[ "A" := Demo.row "a" "PT58S"; "B" := Demo.row "b" "PT1M" ]} in
  let out := Demo.transform "7" 100 w in
  out.1 = Ok 2%nat
  ∧ dom (core out.2) = {[ "A"; "B" ]}
  ∧ ∀ k row, core out.2 !! k = Some row →
      ∃ s, staging w !! k = Some s
           ∧ co_title row = st_title s
           ∧ Demo.interval_in (st_duration s) = Some (co_duration_seconds row)
           ∧ co_updated_at row = 100.
Proof.
  intros w out.
  assert (out = (Ok 2%nat, out.2)) as Hrun by (by vm_compute).
  destruct (transform_to_core_mirror Demo.interval_in Demo.epoch Demo.timestamp_in
              true "7" 100 w 2 out.2 Hrun) as (_ & Hdom & Hrows).
  split_and!; [by rewrite Hrun | by rewrite Hdom; vm_compute |].
  intros k row Hrow. destruct (Hrows k row Hrow) as (s & ? & ? & ? & _ & _ & ?).
  exists s. split_and!; assumption.
Defined.

Lemma transform_to_core_again_witness :
  let w := {| staging := {[ "A" := Demo.row "a" "PT58S"; "B" := Demo.row "b" "PT1M" ]};
              core := {[ "A" := Demo.core_video "old" "PT9S" 9 5 ]};
              statistics := []; logs := [] |} in
  let first := Demo.transform "7" 100 w in
  let second := Demo.transform "8" 200 first.2 in
  first.1 = Ok 2%nat ∧ second.1 = Ok 2%nat
  ∧ core second.2 = touched 200 <$> core first.2.
Proof.
  intros w first second.
  assert (first = (Ok 2%nat, first.2)) as Hrun1 by (by vm_compute).
  assert (second = (Ok 2%nat, second.2)) as Hrun2 by (by vm_compute).
  destruct (transform_to_core_again Demo.interval_in Demo.epoch Demo.timestamp_in
              true "7" 100 "8" 200 w first.2 second.2 2 2 Hrun1 Hrun2) as [_ Hcore].
  split_and!; [by rewrite Hrun1 | by rewrite Hrun2 | done].
Defined.

Lemma transform_runs_keep_created_at_witness :
  let w := {| staging := {[ "A" := Demo.row "a" "PT58S" ]};
              core := {[ "A" := Demo.core_video "old" "PT9S" 9 5 ]};
              statistics := []; logs := [] |} in
  let out := Demo.transforms [("7", 100); ("8", 200); ("9", 300)] w in
  out.1 = Ok ()
  ∧ ∃ new, core out.2 !! "A" = Some new ∧ co_created_at new = 5.
Proof.
  intros w out.
  assert (out = (Ok (), out.2)) as Hrun by (by vm_compute).
  split; [by rewrite Hrun|].
  apply (transform_runs_keep_created_at Demo.interval_in Demo.epoch Demo.timestamp_in
           true [("7", 100); ("8", 200); ("9", 300)] w out.2 "A"
           (Demo.core_video "old" "PT9S" 9 5) Hrun).
  - apply elem_of_dom. eexists. apply lookup_singleton_eq.
  - apply lookup_singleton_eq.
Defined.

Lemma transform_to_core_invalid_timestamp_witness :
  let w := {| staging := {[ "A" := Demo.row "a" "PT58S"; "B" := Demo.row "b" "PT1M" ]};
              core := {[ "C" := Demo.core_video "old" "PT9S" 9 5 ]};
              statistics := [StatisticsRow "C" 0 0 0 6]; logs := [] |} in
  ∃ w', Demo.transform "2025-10-02T14:00:00" 100 w
        = (Raise (InvalidTimestamp "2025-10-02T14:00:00"), w')
        ∧ staging w' = staging w
        ∧ dom (core w') = dom (staging w)
        ∧ statistics w' = statistics w.
Proof.
  intros w.
  apply (transform_to_core_invalid_timestamp Demo.interval_in Demo.epoch
           Demo.timestamp_in true "2025-10-02T14:00:00" 100 w).
  - intros k s Hs.
    assert (k = "A" ∨ k = "B") as Hk.
    { apply elem_of_dom_2 in Hs. revert Hs. unfold w. cbn [staging].
      rewrite dom_insert_L, dom_singleton_L. set_solver. }
    destruct Hk as [-> | ->]; vm_compute in Hs; injection Hs as <-; vm_compute; eauto.
  - by vm_compute.
Defined.

(* ===================================================================== *)
(** * Properties of [find_latest_json] and of the DAG [update_db] *)
(* ===================================================================== *)

Section Dag.

Lemma max_by_mtime_spec l : ∀ best,
  ∃ before f after,
    best :: l = before ++ f :: after
    ∧ max_by_mtime best l = f
    ∧ Forall (λ g, st_mtime g < st_mtime f) before
    ∧ Forall (λ g, st_mtime g ≤ st_mtime f) after.
Proof.
  induction l as [|x l IH]; intros best.
  - exists [], best, []. split_and!; [done | done | constructor | constructor].
  - simpl. destruct (Z.ltb_spec (st_mtime best) (st_mtime x)) as [Hlt|Hge].
    + destruct (IH x) as (before & f & after & Heq & Hmax & Hbefore & Hafter).
      exists (best :: before), f, after. split_and!; [by rewrite Heq | done | | done].
      constructor; [|done].
      destruct before as [|b before]; simpl in Heq; injection Heq as <- _; [done|].
      inversion Hbefore; subst. lia.
    + destruct (IH best) as (before & f & after & Heq & Hmax & Hbefore & Hafter).
      destruct before as [|b before]; simpl in Heq; injection Heq as <- ->.
      * exists [], best, (x :: after).
        split_and!; [done | done | constructor |]. constructor; [lia | done].
      * exists (best :: x :: before), f, after.
        inversion Hbefore as [|? ? Hbf Hrest]; subst.
        split_and!; [done | done | | done].
        constructor; [done|]. constructor; [lia | done].
Qed.

(** X16.  [find_latest_json] fails with [FileNotFoundError] exactly on an
    empty listing; otherwise it returns the path of a listed file that is
    strictly newer than every file listed before it and at least as new as
    every file listed after it. *)
Theorem find_latest_json_latest json_files :
  match find_latest_json json_files with
  | Failed e => json_files = [] ∧ e = FileNotFoundError DATA_PATH
  | Succeeded json_file =>
      ∃ before f after,
        json_files = before ++ f :: after
        ∧ json_file = path f
        ∧ Forall (λ g, st_mtime g < st_mtime f) before
        ∧ Forall (λ g, st_mtime g ≤ st_mtime f) after
  end.
Proof.
  destruct json_files as [|best l]; simpl; [done|].
  destruct (max_by_mtime_spec l best) as (before & f & after & Heq & -> & Hb & Ha).
  exists before, f, after. done.
Qed.

Lemma load_json_listed json_files f :
  NoDup (path <$> json_files) → f ∈ json_files →
  load_json json_files (path f) = Succeeded (content f).
Proof.
  unfold load_json. induction json_files as [|g l IH]; csimpl.
  - by intros _ ?%elem_of_nil.
  - intros [Hg Hl]%NoDup_cons [->|Hin]%elem_of_cons.
    + by rewrite bool_decide_eq_true_2.
    + rewrite bool_decide_eq_false_2; [by apply IH|].
      intros Heq. apply Hg. rewrite Heq. apply list_elem_of_fmap. eauto.
Qed.

Context {interval : Type}.
Context (interval_in : string → option interval).
Context (epoch : interval → Q).
Context (timestamp_in : string → option Z).
Context (statistics_keyed : bool).

Abbreviation dag := (update_db interval_in epoch timestamp_in statistics_keyed).

(** X17.  An attempt of [update_db] that succeeds, with the existing ids
    read, has loaded a newest file of the directory: staging and
    [core.videos] both hold exactly the ids of its snapshot, the count
    returned is their number, and the statistics history has gained one
    row per id, stamped with the extraction date of that snapshot. *)
Theorem update_db_end_to_end json_files env now (w w' : world interval) count :
  NoDup (path <$> json_files) →
  existing_ids_readable env = true →
  dag json_files env now w = (Succeeded count, w') →
  ∃ f recorded_at,
    f ∈ json_files
    ∧ (∀ g, g ∈ json_files → st_mtime g ≤ st_mtime f)
    ∧ dom (staging w') = snapshot_ids (content f)
    ∧ dom (core w') = snapshot_ids (content f)
    ∧ count = size (snapshot_ids (content f))
    ∧ timestamp_in (extraction_date (content f)) = Some recorded_at
    ∧ statistics w'
      = statistics w ++ (statistics_sample recorded_at <$> map_to_list (staging w')).
Proof.
  intros Hnd Hread. unfold update_db.
  destruct json_files as [|best l]; [done|].
  destruct (max_by_mtime_spec l best) as (before & f & after & Heq & Hmax & Hb & Ha).
  cbn [find_latest_json]. rewrite Hmax.
  assert (f ∈ best :: l) as Hf by (rewrite Heq; set_solver).
  rewrite (load_json_listed _ f Hnd Hf).
  destruct (sync_to_staging env (content f) w) as [[n|e] w1] eqn:Hsync; [|done].
  destruct (transform_to_core _ _ _ _ _ _ w1) as [[m|e] w2] eqn:Htransform; [|done].
  intros [= <- <-].
  pose proof Hsync as (u & ps & Hu & Hps & -> & Hw1)%sync_to_staging_Ok_inv.
  assert (dom (staging w1) = snapshot_ids (content f)) as Hdom.
  { rewrite Hw1, (reconciled_dom env _ u ps w Hu Hps). by rewrite Hread. }
  assert (statistics w1 = statistics w) as Hstat by (by rewrite Hw1).
  pose proof (transform_to_core_keys _ _ _ _ _ _ _ _ _ Htransform) as Hkeys.
  apply transform_to_core_Ok_inv in Htransform
    as (w0 & ts & _ & Hts & Hst & _ & Hstats & ->).
  exists f, ts. split_and!; [done | | by rewrite Hst | by rewrite Hkeys | | done |].
  - intros g. rewrite Heq, elem_of_app, elem_of_cons.
    intros [Hg|[->|Hg]]; [|lia|].
    + apply (proj1 (Forall_forall _ _) Hb) in Hg. lia.
    + by apply (proj1 (Forall_forall _ _) Ha) in Hg.
  - by rewrite <- !size_dom, Hkeys, Hdom.
  - by rewrite Hstats, Hstat, Hst.
Qed.

End Dag.

Lemma update_db_end_to_end_witness :
  let old := Demo.data [Demo.video "X" "x" "PT1M"] in
  let new := Demo.data [Demo.video "Y" "y" "PT58S"; Demo.video "Z" "z" "PT2H"] in
  let json_files := [JsonFile "MrBeast_1.json" 10 old; JsonFile "MrBeast_2.json" 20 new] in
  let w := Demo.db {[ "X" := Demo.row "x" "PT1M" ]} in
  let out := update_db Demo.interval_in Demo.epoch Demo.timestamp_in true
               json_files (Environment true) 100 w in
  out.1 = Succeeded 2%nat
  ∧ dom (staging out.2) = {[ "Y"; "Z" ]}
  ∧ dom (core out.2) = {[ "Y"; "Z" ]}.
Proof.
  intros old new json_files w out.
  assert (out = (Succeeded 2%nat, out.2)) as Hrun by (by vm_compute).
  destruct (update_db_end_to_end Demo.interval_in Demo.epoch Demo.timestamp_in true
              json_files (Environment true) 100 w out.2 2)
    as (f & ts & _ & _ & _ & _ & _ & _ & _); [| done | done |].
  - apply (bool_decide_unpack _). by vm_compute.
  - split_and!; [by rewrite Hrun | by vm_compute | by vm_compute].
Defined.

(* ===================================================================== *)
(** * Properties of [get_channel_videos] *)
(* ===================================================================== *)

Lemma batches_unfold video_ids :
  batches video_ids
  = (λ k, take 50 (drop (k * 50) video_ids))
      <$> seq 0 ((List.length video_ids + 49) / 50).
Proof.
  unfold batches, range_from_0, slice. rewrite <- list_fmap_compose.
  replace (List.length video_ids + 50 - 1)%nat
    with (List.length video_ids + 49)%nat by lia.
  apply list_fmap_ext. intros _ k _. simpl. f_equal. lia.
Qed.

Lemma chunks_concat {A} n : ∀ l : list A,
  (List.length l ≤ n * 50)%nat →
  List.concat ((λ k, take 50 (drop (k * 50) l)) <$> seq 0 n) = l.
Proof.
  induction n as [|n IH]; intros l Hl.
  - destruct l; [done | simpl in Hl; lia].
  - cbn [seq]. rewrite <- fmap_S_seq, fmap_cons, <- list_fmap_compose.
    cbn [List.concat].
    rewrite (list_fmap_ext _ (λ k, take 50 (drop (k * 50) (drop 50 l)))).
    2:{ intros _ k _. simpl. by rewrite drop_drop. }
    rewrite IH; [apply take_drop|]. rewrite length_drop. lia.
Qed.

Lemma batches_concat video_ids : List.concat (batches video_ids) = video_ids.
Proof.
  rewrite batches_unfold. apply chunks_concat.
  pose proof (Nat.div_mod_eq (List.length video_ids + 49) 50) as Hdiv.
  pose proof (Nat.mod_upper_bound (List.length video_ids + 49) 50 ltac:(lia)) as Hmod.
  lia.
Qed.

(** X19.  The batches of the details loop cut the list of ids into
    consecutive pieces: put end to end they give the list back, none is
    empty, none has more than 50 ids, and there are as many as the length
    divided by 50, rounded up. *)
Theorem batches_partition video_ids :
  List.concat (batches video_ids) = video_ids
  ∧ Forall (λ batch_ids, (1 ≤ List.length batch_ids ≤ 50)%nat) (batches video_ids)
  ∧ List.length (batches video_ids) = ((List.length video_ids + 49) / 50)%nat.
Proof.
  split; [apply batches_concat|]. rewrite batches_unfold.
  pose proof (Nat.div_mod_eq (List.length video_ids + 49) 50) as Hdiv.
  pose proof (Nat.mod_upper_bound (List.length video_ids + 49) 50 ltac:(lia)) as Hmod.
  split.
  - apply Forall_fmap, Forall_forall. intros k Hk%elem_of_seq. simpl.
    rewrite length_take, length_drop. lia.
  - by rewrite length_fmap, length_seq.
Qed.

Lemma collect_video_ids_spec total pages : ∀ video_ids,
  video_ids ⊆ collect_video_ids total video_ids pages
  ∧ collect_video_ids total video_ids pages ⊆ video_ids ∪ playlist_ids pages
  ∧ (tokens_present pages →
     Z.of_nat (size (collect_video_ids total video_ids pages)) < total →
     collect_video_ids total video_ids pages = video_ids ∪ playlist_ids pages).
Proof.
  induction pages as [items|items token rest IH]; intros ids; simpl.
  - destruct (Z.ltb_spec (Z.of_nat (size ids)) total).
    + split_and!; [set_solver | set_solver | done].
    + split_and!; [set_solver | set_solver | lia].
  - destruct (Z.ltb_spec (Z.of_nat (size ids)) total).
    + case_bool_decide as Htoken.
      * split_and!; [set_solver | set_solver | by intros [? _]].
      * destruct (IH (ids ∪ list_to_set items)) as (Hsub & Hsup & Hall).
        split_and!; [set_solver | set_solver |].
        intros [_ Hrest] Hsize. rewrite (Hall Hrest Hsize). set_solver.
    + split_and!; [set_solver | set_solver | lia].
Qed.


Lemma NoDup_bind_batches (f : list string → list string) bs :
  NoDup (List.concat bs) →
  (∀ b, NoDup b → NoDup (f b) ∧ f b ⊆ b) →
  NoDup (bs ≫= f) ∧ bs ≫= f ⊆ List.concat bs.
Proof.
  intros Hnd Hf. induction bs as [|b bs IH]; csimpl; [split; [constructor | done]|].
  cbn [List.concat] in Hnd. apply NoDup_app in Hnd as (Hb & Hdisj & Hbs).
  destruct (IH Hbs) as [IHnd IHsub]. destruct (Hf b Hb) as [Hfb Hsub].
  split.
  - apply NoDup_app. split_and!; [done | | done].
    intros x Hx Hx'. apply (Hdisj x); [by apply Hsub | by apply IHsub].
  - intros x [Hx|Hx]%elem_of_app; apply elem_of_app; [left; by apply Hsub | right; by apply IHsub].
Qed.

Section Extractor.
Context (total_seconds : string → option Z).

Abbreviation extract := (get_channel_videos total_seconds).

(** X22.  The extractor and the loader fit: when the API answers each
    batch with items of the ids asked, at most one for each, and with
    statistics that are absent or integer literals, the file written by
    [get_channel_videos] is one on which [sync_to_staging] completes and
    returns the [total_videos] of the file; with the existing ids read,
    staging then has that many rows, all of them ids of the playlist. *)
Theorem extracted_snapshot_syncs {interval} config api ex env (w : world interval) :
  extract config api = Ok ex →
  answers_ids_asked api →
  (∀ batch_ids, Forall readable_statistics (videos_list api batch_ids)) →
  ∃ w', sync_to_staging env (output ex) w = (Ok (total_videos ex), w')
        ∧ (existing_ids_readable env = true →
           size (staging w') = total_videos ex
           ∧ dom (staging w') ⊆ playlist_ids (playlist_items api)).
Proof.
  intros Hex Hapi Hstats. unfold get_channel_videos in Hex.
  destruct (channels_list api) as [c|]; [|done].
  destruct (Py.int (videoCount c)) as [total|]; [|done].
  csimpl in Hex. injection Hex as <-. cbn [output total_videos].
  set (ids := collect_video_ids total ∅ (playlist_items api)).
  set (vs := batches (elements ids) ≫= (λ b, video_record total_seconds <$> videos_list api b)).
  set (data := {| channel_handle := _; videos := vs |}).
  assert (video_id <$> vs
          = Some <$> (batches (elements ids) ≫= (λ b, item_id <$> videos_list api b)))
    as Hids.
  { unfold vs. generalize (batches (elements ids)). intros bs.
    induction bs as [|b bs IH]; csimpl; [done|].
    rewrite !fmap_app, IH, <- !list_fmap_compose. done. }
  destruct (NoDup_bind_batches (λ b, item_id <$> videos_list api b)
              (batches (elements ids))) as [Hnd Hsub].
  { rewrite batches_concat. apply NoDup_elements. }
  { exact Hapi. }
  rewrite batches_concat in Hsub.
  assert ((with_key <$> vs).*1
          = batches (elements ids) ≫= (λ b, item_id <$> videos_list api b)) as Hkeys.
  { rewrite <- list_fmap_compose.
    change (fst ∘ with_key) with (default "" ∘ video_id).
    rewrite list_fmap_compose, Hids, <- list_fmap_compose. apply list_fmap_id. }
  assert (dict_comprehension [] (videos data) = Ok (with_key <$> vs)) as Hu.
  { pose proof (dict_comprehension_app (with_key <$> vs) []) as Happ.
    cbn [app] in Happ. rewrite <- (list_fmap_compose with_key snd) in Happ.
    change (snd ∘ with_key) with (@id raw_video) in Happ.
    rewrite list_fmap_id in Happ. apply Happ.
    - by rewrite Hkeys.
    - apply Forall_fmap, Forall_forall.
      intros v (b & (item & -> & _)%list_elem_of_fmap & _)%list_elem_of_bind. done. }
  assert (∃ ps, parameters_of data (with_key <$> vs).*2 ps) as [ps Hps].
  { apply parameters_of_exists. rewrite <- list_fmap_compose, list_fmap_id.
    apply Forall_forall.
    intros v (b & (item & -> & Hitem)%list_elem_of_fmap & _)%list_elem_of_bind.
    apply upsert_parameters_Ok. unfold complete_record, video_record; simpl.
    destruct (proj1 (Forall_forall _ _) (Hstats b) item Hitem) as (? & ? & ?).
    split_and!; eauto. }
  eexists. split.
  - rewrite (sync_to_staging_run env data w _ ps Hu Hps). by rewrite length_fmap.
  - intros Hread.
    assert (dom (staging (reconciled env (with_key <$> vs) ps w))
            = list_to_set (batches (elements ids) ≫= (λ b, item_id <$> videos_list api b)))
      as Hdom.
    { rewrite (reconciled_dom env data _ ps w Hu Hps), Hread.
      destruct (dedup_keyed data _ Hu) as (_ & _ & <-). by rewrite Hkeys. }
    split.
    + rewrite <- size_dom, Hdom, size_list_to_set by done.
      by rewrite <- (length_fmap video_id vs), Hids, length_fmap.
    + rewrite Hdom. intros k Hk%elem_of_list_to_set. apply Hsub in Hk.
      apply elem_of_elements in Hk.
      destruct (collect_video_ids_spec total (playlist_items api) ∅) as (_ & Hsup & _).
      set_solver.
Qed.

(** X23.  A channel whose statistics announce no video gives a file
    without records, and loading that file, with the existing ids read,
    empties staging: the loader returns 0 and keeps no row. *)
Theorem no_video_announced_empties_staging {interval} config api channel_data total env
    (w : world interval) :
  channels_list api = Some channel_data →
  Py.int (videoCount channel_data) = Ok total →
  total ≤ 0 →
  existing_ids_readable env = true →
  ∃ ex w', extract config api = Ok ex
           ∧ videos (output ex) = []
           ∧ sync_to_staging env (output ex) w = (Ok 0%nat, w')
           ∧ staging w' = ∅.
Proof.
  intros Hc Hint Htotal Hread. unfold get_channel_videos. rewrite Hc, Hint. csimpl.
  assert (collect_video_ids total ∅ (playlist_items api) = ∅) as ->.
  { assert ((Z.of_nat (size (∅ : gset string)) <? total) = false) as Hlt
      by (rewrite size_empty; apply Z.ltb_ge; simpl; lia).
    destruct (playlist_items api); cbn [collect_video_ids]; by rewrite Hlt. }
  rewrite elements_empty. change (batches []) with (@nil (list string)). csimpl.
  eexists _, (reconciled env [] [] w). split; [reflexivity|]. cbn [output videos].
  set (data := {| channel_handle := _; channel_id := _; extraction_date := _;
                  videos := _ |}).
  split_and!; [done | |].
  - by apply (sync_to_staging_run env data w [] []); [done | constructor].
  - apply dom_empty_inv_L.
    rewrite (reconciled_dom env data [] [] w); [by rewrite Hread | done | constructor].
Qed.

End Extractor.


Lemma extracted_snapshot_syncs_witness :
  ∃ ex w',
    get_channel_videos Demo.total_seconds DemoApi.config (DemoApi.api "3") = Ok ex
    ∧ sync_to_staging (Environment true) (output ex) (Demo.db ∅)
      = (Ok (total_videos ex), w')
    ∧ size (staging w') = total_videos ex
    ∧ dom (staging w') ⊆ {[ "a"; "b"; "c" ]}.
Proof.
  destruct (get_channel_videos Demo.total_seconds DemoApi.config (DemoApi.api "3"))
    as [ex|e] eqn:Hex; [|by vm_compute in Hex].
  destruct (extracted_snapshot_syncs Demo.total_seconds DemoApi.config
              (DemoApi.api "3") ex (Environment true) (Demo.db ∅) Hex)
    as (w' & Hsync & Hrest).
  - intros b Hb. simpl. rewrite <- list_fmap_compose.
    change (item_id ∘ DemoApi.item) with (@id string). by rewrite list_fmap_id.
  - intros b. simpl. apply Forall_fmap, Forall_forall. intros id _.
    split_and!; [by exists 10 | done | by exists 3].
  - exists ex, w'. destruct (Hrest eq_refl) as [Hsize Hdom].
    split_and!; [done | done | done |].
    etrans; [exact Hdom|]. simpl. set_solver.
Defined.

Lemma no_video_announced_empties_staging_witness :
  let w := Demo.db {[ "X" := Demo.row "x" "PT1M" ]} in
  ∃ ex w',
    get_channel_videos Demo.total_seconds DemoApi.config (DemoApi.api "0") = Ok ex
    ∧ videos (output ex) = []
    ∧ sync_to_staging (Environment true) (output ex) w = (Ok 0%nat, w')
    ∧ staging w' = ∅.
Proof.
  intros w.
  apply (no_video_announced_empties_staging Demo.total_seconds DemoApi.config
           (DemoApi.api "0") {| uploads := "UU0"; videoCount := "0" |} 0
           (Environment true) w); [done | by vm_compute | lia | done].
Defined.

